(** * Request authorization and error normalisation middleware

    A shallow embedding of [backend/middleware/auth.js] ([auth], [authorize],
    [optionalAuth]) and [backend/middleware/errorHandler.js] ([APIError],
    [errorHandler], [asyncHandler]).

    JavaScript values are modelled just far enough to keep the guards the
    middleware relies on: truthiness ([!x], [a || b], [a && b]), object
    literals with spread, and the part of [JSON.stringify] that decides which
    properties reach the client. The jsonwebtoken library and the clock it
    reads are parameters of the model. *)

From Stdlib Require Import String Ascii List ZArith Bool.
From Stdlib Require Import DecimalString Lia.
Import ListNotations.
Open Scope string_scope.

(** ** JavaScript values *)

Module Js.

#[local] Set Warnings "-register-all".

(** Numbers are the integer-valued ones plus [NaN]; HTTP status codes and
    clock readings need nothing more. *)
Inductive value : Type :=
| Undefined
| Null
| Boolean (b : bool)
| Num (z : Z)
| NaN
| Str (s : string)
| Obj (props : list (string * value))
| Arr (items : list value).

(** ToBoolean. *)
Definition truthy (v : value) : bool :=
  match v with
  | Undefined | Null | NaN => false
  | Boolean b => b
  | Num z => negb (z =? 0)%Z
  | Str s => negb (s =? EmptyString)
  | Obj _ | Arr _ => true
  end.

(** [a || b] and [a && b] return one of their operands. *)
Definition orelse (a b : value) : value := if truthy a then a else b.
Definition andalso (a b : value) : value := if truthy a then b else a.

(** Property lookup in a property list; a missing property reads as
    [undefined]. *)
Fixpoint lookup (k : string) (props : list (string * value)) : value :=
  match props with
  | [] => Undefined
  | (k', v) :: rest => if k =? k' then v else lookup k rest
  end.

Fixpoint has_key (k : string) (props : list (string * value)) : bool :=
  match props with
  | [] => false
  | (k', _) :: rest => (k =? k') || has_key k rest
  end.

(** [v.k] for a value that is not [null] or [undefined]: primitives carry
    none of the properties read by the middleware. *)
Definition get (v : value) (k : string) : value :=
  match v with
  | Obj props => lookup k props
  | _ => Undefined
  end.

(** Defining a property keeps the position of an existing key and appends a
    new one, as object literals and spread do. *)
Fixpoint define (k : string) (v : value) (props : list (string * value))
  : list (string * value) :=
  match props with
  | [] => [(k, v)]
  | (k', v') :: rest =>
      if k =? k' then (k', v) :: rest else (k', v') :: define k v rest
  end.

Definition define_all (src dst : list (string * value))
  : list (string * value) :=
  fold_left (fun acc kv => define (fst kv) (snd kv) acc) src dst.

Definition index_key (n : nat) : string :=
  NilEmpty.string_of_uint (Nat.to_uint n).

Fixpoint indexed (n : nat) (items : list value) : list (string * value) :=
  match items with
  | [] => []
  | x :: rest => (index_key n, x) :: indexed (S n) rest
  end.

Fixpoint chars (s : string) : list value :=
  match s with
  | EmptyString => []
  | String c rest => Str (String c EmptyString) :: chars rest
  end.

(** Own enumerable properties copied by [...v] inside an object literal. *)
Definition spread (v : value) : list (string * value) :=
  match v with
  | Obj props => props
  | Arr items => indexed 0 items
  | Str s => indexed 0 (chars s)
  | Undefined | Null | Boolean _ | Num _ | NaN => []
  end.

(** What [JSON.stringify] lets through: a property holding [undefined] is
    dropped, [undefined] inside an array and [NaN] become [null]. [None]
    stands for a value that serialises to nothing. *)
Fixpoint to_json (v : value) : option value :=
  match v with
  | Undefined => None
  | NaN => Some Null
  | Null => Some Null
  | Boolean b => Some (Boolean b)
  | Num z => Some (Num z)
  | Str s => Some (Str s)
  | Obj props =>
      Some (Obj ((fix walk (ps : list (string * value)) :=
                    match ps with
                    | [] => []
                    | (k, x) :: rest =>
                        match to_json x with
                        | Some y => (k, y) :: walk rest
                        | None => walk rest
                        end
                    end) props))
  | Arr items =>
      Some (Arr ((fix walk (xs : list value) :=
                    match xs with
                    | [] => []
                    | x :: rest =>
                        match to_json x with
                        | Some y => y :: walk rest
                        | None => Null :: walk rest
                        end
                    end) items))
  end.

Fixpoint json_props (ps : list (string * value)) : list (string * value) :=
  match ps with
  | [] => []
  | (k, x) :: rest =>
      match to_json x with
      | Some y => (k, y) :: json_props rest
      | None => json_props rest
      end
  end.

(** An error object as the middleware reads it: whether it is an instance of
    [APIError], and the properties [name], [message], [status], [details],
    [stack] (each [undefined] when the object lacks it). *)
Record error : Type := mkError {
  e_api : bool;
  e_name : value;
  e_message : value;
  e_status : value;
  e_details : value;
  e_stack : value
}.



End Js.

Import Js.

(** ** Process-wide configuration ([config.server.env], [config.jwt.secret]) *)

Record config : Type := mkConfig {
  server_env : string;
  jwt_secret : string
}.

Definition development (cfg : config) : bool :=
  server_env cfg =? "development".

(** ** errorHandler.js *)

(** [class APIError extends Error]: [constructor(message, status = 500,
    details = null)]. A default applies when the argument is [undefined].
    [stack] is the trace the engine captured at construction. *)
Definition APIError (message : string) (status details : value)
  (stack : string) : error :=
  {| e_api := true;
     e_name := Str "APIError";
     e_message := Str message;
     e_status := match status with Undefined => Num 500 | s => s end;
     e_details := match details with Undefined => Null | d => d end;
     e_stack := Str stack |}.

(** [res.status(code).json(body)]. *)
Record response : Type := mkResponse {
  status_code : value;
  body : value
}.

(** What the client receives as the body. *)
Definition wire (r : response) : option value := to_json (body r).

(** The object handed to [console.error]. *)
Definition log_entry (cfg : config) (err : error) : value :=
  Obj [ ("message", e_message err);
        ("stack", if development cfg then e_stack err else Undefined);
        ("details", e_details err) ].

Definition errorHandler (cfg : config) (err : error) : value * response :=
  let logged := log_entry cfg err in
  let isAPIError := e_api err in
  let statusCode := orelse (e_status err) (Num 500) in
  let inner :=
    define_all
      (spread (andalso (Boolean (development cfg)) (Obj [("stack", e_stack err)])))
      (define_all
         (spread (andalso (e_details err) (Obj [("details", e_details err)])))
         [ ("message",
            if isAPIError then e_message err else Str "Internal Server Error");
           ("status", statusCode) ]) in
  let errorResponse := Obj [("error", Obj inner)] in
  (logged, mkResponse statusCode errorResponse).

Definition respond (cfg : config) (err : error) : response :=
  snd (errorHandler cfg err).

(** The object under ["error"] as handed to [res.json]. *)
Definition payload (r : response) : list (string * value) :=
  match body r with
  | Obj [(k, Obj inner)] => if k =? "error" then inner else []
  | _ => []
  end.

(** The wire contract of the envelope's inner object:
    [{ message: string, status: integer, details?: any, stack?: string }]. *)
Definition is_str (v : value) : bool :=
  match v with
  | Str _ => true
  | _ => false
  end.

Definition optional_shape (rest : list (string * value)) : bool :=
  match rest with
  | [] => true
  | [(k, v)] => (k =? "details") || ((k =? "stack") && is_str v)
  | [(k, _); (k', v')] => (k =? "details") && (k' =? "stack") && is_str v'
  | _ => false
  end.

Definition envelope_shape (inner : list (string * value)) : bool :=
  match inner with
  | (k1, Str _) :: (k2, Num _) :: rest =>
      (k1 =? "message") && (k2 =? "status") && optional_shape rest
  | _ => false
  end.

(** The inner object of the envelope as the client sees it. *)
Definition envelope (r : response) : list (string * value) :=
  match wire r with
  | Some (Obj [(k, Obj inner)]) => if k =? "error" then inner else []
  | _ => []
  end.

(** The four parts of the inner object, as [errorHandler] fills them. *)
Definition shown_message (err : error) : value :=
  if e_api err then e_message err else Str "Internal Server Error".

Definition shown_status (err : error) : value :=
  if truthy (e_status err) then e_status err else Num 500.

Definition shown_details (err : error) : list (string * value) :=
  if truthy (e_details err) then [("details", e_details err)] else [].

Definition shown_stack (cfg : config) (err : error) : list (string * value) :=
  if development cfg then [("stack", e_stack err)] else [].

(** ** Completions: a value, or a thrown error *)

Inductive completion (A : Type) : Type :=
| Normal (a : A)
| Throw (e : error).

Arguments Normal {A} a.
Arguments Throw {A} e.

Definition bind {A B : Type} (c : completion A) (k : A -> completion B)
  : completion B :=
  match c with
  | Normal a => k a
  | Throw e => Throw e
  end.

(** [try { c } catch (error) { h error }]. *)
Definition try_catch {A : Type} (c : completion A)
  (h : error -> completion A) : completion A :=
  match c with
  | Normal a => Normal a
  | Throw e => h e
  end.

Declare Scope js_scope.
Delimit Scope js_scope with js.
Notation "x <- c ;; k" := (bind c (fun x => k))
  (at level 61, c at next level, right associativity) : js_scope.
Open Scope js_scope.

(** ** The jsonwebtoken library and the engine, as the middleware uses them *)

(** The errors [jwt.verify] throws carry a [name], a [message] and a trace,
    and no [status] or [details]. *)
Record jwt_error : Type := mkJwtError {
  jwt_name : string;
  jwt_message : string;
  jwt_stack : string
}.

Definition thrown (e : jwt_error) : error :=
  mkError false (Str (jwt_name e)) (Str (jwt_message e))
          Undefined Undefined (Str (jwt_stack e)).

Inductive verify_result : Type :=
| Verified (decoded : value)
| Rejected (e : jwt_error).

(** [jwt_verify token secret now] is [jwt.verify(token, secret)] called when
    the clock reads [now]; [stack_trace message] is the trace captured for an
    error constructed with [message]. *)
Record runtime : Type := mkRuntime {
  jwt_verify : value -> string -> Z -> verify_result;
  stack_trace : string -> string
}.

Definition verify (rt : runtime) (token : value) (secret : string) (now : Z)
  : completion value :=
  match jwt_verify rt token secret now with
  | Verified decoded => Normal decoded
  | Rejected e => Throw (thrown e)
  end.

(** [new APIError(message, status)]. *)
Definition new_APIError (rt : runtime) (message : string) (status : Z)
  : error :=
  APIError message (Num status) Undefined (stack_trace rt message).

(** ** String operations used on the header *)

(** [s.split(sep)] for a one-character separator. *)
Fixpoint split_on (sep : ascii) (s : string) : list string :=
  match s with
  | EmptyString => [EmptyString]
  | String c rest =>
      if Ascii.eqb c sep then EmptyString :: split_on sep rest
      else match split_on sep rest with
           | [] => [String c EmptyString]
           | piece :: pieces => String c piece :: pieces
           end
  end.

Definition startsWith (v : value) (p : string) : bool :=
  match v with
  | Str s => String.prefix p s
  | _ => false
  end.

Definition split (v : value) (sep : ascii) : list value :=
  match v with
  | Str s => map Str (split_on sep s)
  | _ => []
  end.

(** [xs[n]]: [undefined] past the end. *)
Definition item (xs : list value) (n : nat) : value := nth n xs Undefined.

(** [authHeader.split(' ')[1]]. *)
Definition extract_token (authHeader : value) : value :=
  item (split authHeader " ") 1.

(** [v === s] for a string literal [s]. *)
Definition is_string (v : value) (s : string) : bool :=
  match v with
  | Str s' => s' =? s
  | _ => false
  end.

(** ** auth.js *)

(** The request: the [Authorization] header ([None] when the client sent
    none) and [req.user]. *)
Record request : Type := mkRequest {
  authorization : option string;
  user : value
}.

Definition header_authorization (req : request) : value :=
  match authorization req with
  | Some h => Str h
  | None => Undefined
  end.

Definition set_user (req : request) (decoded : value) : request :=
  mkRequest (authorization req) decoded.

(** How a middleware hands over: it calls [next()] or [next(error)], or an
    exception leaves it. *)
Inductive outcome : Type :=
| Next (e : option error)
| Thrown (e : error).

(** A middleware fails with [code] when the error it passes on, or throws,
    has that [status]; it succeeds when it calls [next()]. *)
Definition fails_with (o : outcome) (code : Z) : Prop :=
  exists e, (o = Next (Some e) \/ o = Thrown e) /\ e_status e = Num code.

Definition succeeds (o : outcome) : Prop := o = Next None.

Definition auth (rt : runtime) (cfg : config) (now : Z) (req : request)
  : request * outcome :=
  let attempt : completion request :=
    let authHeader := header_authorization req in
    if negb (truthy authHeader) then
      Throw (new_APIError rt "No authentication token provided" 401)
    else if negb (startsWith authHeader "Bearer ") then
      Throw (new_APIError rt "Invalid token format" 401)
    else
      let token := extract_token authHeader in
      try_catch
        (decoded <- verify rt token (jwt_secret cfg) now ;;
         Normal (set_user req decoded))
        (fun error =>
           if is_string (e_name error) "TokenExpiredError" then
             Throw (new_APIError rt "Token has expired" 401)
           else if is_string (e_name error) "JsonWebTokenError" then
             Throw (new_APIError rt "Invalid token" 401)
           else Throw error) in
  match attempt with
  | Normal req' => (req', Next None)
  | Throw error => (req, Next (Some error))
  end.

(** The argument of [authorize]: left out, one role name, or an array of
    role names. *)
Inductive roles_arg : Type :=
| RolesOmitted
| RoleName (r : string)
| RoleList (rs : list string).

Definition allowed_roles (roles : roles_arg) : list string :=
  match roles with
  | RolesOmitted => []
  | RoleName r => [r]
  | RoleList rs => rs
  end.

(** [roles.includes(v)] for an array of strings. *)
Definition includes (roles : list string) (v : value) : bool :=
  match v with
  | Str r => existsb (String.eqb r) roles
  | _ => false
  end.

Definition authorize (rt : runtime) (roles : roles_arg) (req : request)
  : outcome :=
  let roles := allowed_roles roles in
  if negb (truthy (user req)) then
    Thrown (new_APIError rt "User not authenticated" 401)
  else if truthy (Num (Z.of_nat (length roles)))
          && negb (includes roles (get (user req) "role")) then
    Thrown (new_APIError rt "Unauthorized - Insufficient permissions" 403)
  else Next None.

Definition optionalAuth (rt : runtime) (cfg : config) (now : Z)
  (req : request) : request * outcome :=
  let attempt : completion request :=
    let authHeader := header_authorization req in
    if negb (truthy authHeader) || negb (startsWith authHeader "Bearer ") then
      Normal req
    else
      let token := extract_token authHeader in
      try_catch
        (decoded <- verify rt token (jwt_secret cfg) now ;;
         Normal (set_user req decoded))
        (fun error => Normal req) in
  match attempt with
  | Normal req' => (req', Next None)
  | Throw error => (req, Next (Some error))
  end.

(** ** asyncHandler and the supervised run of a handler *)

(** The body of a handler, as far as supervision can tell: it writes its
    response and returns, it throws, or it waits at an [await] and goes on. *)
Inductive handler_body : Type :=
| Respond (r : response)
| Raise (e : error)
| Await (k : handler_body).

(** An [async] function always returns a promise, which settles as its body
    does. A plain function returns after writing its response, or throws. *)
Inductive handler : Type :=
| AsyncFn (b : handler_body)
| PlainFn (c : completion response).

(** [fn(req, res, next)]: the promise returned, or the exception thrown by
    the call itself. A value that is not a promise is wrapped by
    [Promise.resolve] into a fulfilled one. *)
Definition call (fn : handler) : completion handler_body :=
  match fn with
  | AsyncFn b => Normal b
  | PlainFn (Normal r) => Normal (Respond r)
  | PlainFn (Throw e) => Throw e
  end.

(** How the promise settles: fulfilled, or rejected with an error. *)
Fixpoint settle (p : handler_body) : completion response :=
  match p with
  | Respond r => Normal r
  | Raise e => Throw e
  | Await k => settle k
  end.

(** A body that reaches [b] after [n] suspension points. *)
Fixpoint awaits (n : nat) (b : handler_body) : handler_body :=
  match n with
  | O => b
  | S n' => Await (awaits n' b)
  end.


(** What a function mounted on the router leaves behind: the response it
    wrote, a call [next(e)], an exception of the call itself, or a promise
    that rejects with nobody attached to it. *)
Inductive supervised : Type :=
| Replied (r : response)
| Forwarded (e : error)
| Escaped (e : error)
| Dropped (e : error).

(** [(req, res, next) => { Promise.resolve(fn(req, res, next)).catch(next) }]:
    an exception of the call [fn(req, res, next)] leaves the wrapper before
    any promise exists; a rejection of the promise is passed to [next]. *)
Definition asyncHandler (fn : handler) : supervised :=
  match call fn with
  | Throw e => Escaped e
  | Normal p =>
      match settle p with
      | Normal r => Replied r
      | Throw e => Forwarded e
      end
  end.


(** What reaches the transport layer: a response, or a failure nobody took,
    for which no response is written. *)
Inductive transport : Type :=
| Answered (r : response)
| Unhandled (e : error).

(** The router around a mounted function, with [on_error] as the
    error-handling middleware: [next(e)] runs it; an exception that leaves
    the function is caught by the router, which calls [next(e)] itself; a
    dropped rejection reaches nobody. A failure is an error object here. *)
Definition dispatch (on_error : error -> response) (s : supervised)
  : transport :=
  match s with
  | Replied r => Answered r
  | Forwarded e => Answered (on_error e)
  | Escaped e => Answered (on_error e)
  | Dropped e => Unhandled e
  end.


(** ** Sample data *)

Definition demo_claims : value :=
  Obj [ ("id", Str "42"); ("email", Str "ada@example.com");
        ("role", Str "admin"); ("iat", Num 1000); ("exp", Num 4600) ].

Definition demo_token : string := "header.payload.signature".
Definition early_token : string := "header.notyet.signature".

Definition demo_jwt_error (name message : string) : jwt_error :=
  mkJwtError name message (name ++ ": " ++ message).

(** A stand-in for the library: one token signed with the default secret and
    expiring at 4600, one token not valid before 2000. *)
Definition demo_verify (token : value) (secret : string) (now : Z)
  : verify_result :=
  if is_string token demo_token then
    if secret =? "your-secret-key" then
      if (now <? 4600)%Z then Verified demo_claims
      else Rejected (demo_jwt_error "TokenExpiredError" "jwt expired")
    else Rejected (demo_jwt_error "JsonWebTokenError" "invalid signature")
  else if is_string token early_token then
    if (now <? 2000)%Z then
      Rejected (demo_jwt_error "NotBeforeError" "jwt not active")
    else Verified demo_claims
  else Rejected (demo_jwt_error "JsonWebTokenError" "jwt malformed").

Definition demo_runtime : runtime :=
  mkRuntime demo_verify (fun message => "Error: " ++ message).

Definition bare_request : request := mkRequest None Undefined.
Definition basic_request : request :=
  mkRequest (Some "Basic dXNlcjpwYXNz") Undefined.
Definition bearer_request : request :=
  mkRequest (Some ("Bearer " ++ demo_token)) Undefined.
Definition forged_request : request :=
  mkRequest (Some "Bearer forged.payload.signature") Undefined.
Definition early_request : request :=
  mkRequest (Some ("Bearer " ++ early_token)) Undefined.

Definition user_identity : value :=
  Obj [ ("id", Str "7"); ("email", Str "bob@example.com");
        ("role", Str "user") ].

(** A rejection with a plain object, which has no [stack]. *)
Definition traceless_failure : error :=
  mkError false Undefined (Str "Out of stock") Undefined Undefined Undefined.

(** A failure that is no [APIError] but carries its own [status], as the
    JSON body parser raises for a malformed body. *)
Definition parse_failure : error :=
  mkError false (Str "SyntaxError") (Str "Unexpected token } in JSON")
          (Num 400) Undefined
          (Str "SyntaxError: Unexpected token } in JSON").

(** A plain [Error] to which a [status] and [details] were assigned. *)
Definition rate_limited : error :=
  mkError false (Str "Error") (Str "Too many requests") (Num 429)
          (Obj [("retryAfter", Num 30)]) (Str "Error: Too many requests").

(** Structured errors built with a falsy [status] or [details]. *)
Definition zero_status : error :=
  APIError "Degenerate" (Num 0) Undefined "Error: Degenerate".

Definition zero_details : error :=
  APIError "Quota exceeded" (Num 429) (Num 0) "Error: Quota exceeded".

(** A failure with no [status]: reading a property of [undefined]. *)
Definition null_dereference : error :=
  mkError false (Str "TypeError")
          (Str "Cannot read properties of undefined")
          Undefined Undefined
          (Str "TypeError: Cannot read properties of undefined").

Definition production_cfg : config := mkConfig "production" "your-secret-key".
Definition development_cfg : config := mkConfig "development" "your-secret-key".

Definition payment_not_found : error :=
  APIError "Payment not found" (Num 404) Undefined "Error: Payment not found".

(** ** server.js: the error-handling middleware the application mounts *)

Definition serverErrorHandler (err : error) : response :=
  mkResponse
    (orelse (e_status err) (Num 500))
    (Obj [("error",
           Obj [ ("message",
                  orelse (e_message err) (Str "Internal Server Error"));
                 ("status", orelse (e_status err) (Num 500)) ])]).

(** ** A route: middleware in front of a supervised handler *)

Definition middleware : Type := request -> request * outcome.

(** The router runs the middleware of a route in order. [next()] moves on
    with the request as the middleware left it; [next(e)] and an exception
    skip what is left of the route and go to the error-handling middleware. *)
Fixpoint pipeline (mws : list middleware) (req : request) : request + error :=
  match mws with
  | [] => inl req
  | mw :: rest =>
      match mw req with
      | (req', Next None) => pipeline rest req'
      | (_, Next (Some e)) => inr e
      | (_, Thrown e) => inr e
      end
  end.

(** [router.METHOD(path, ...mws, asyncHandler(h))], with [on_error] as the
    error-handling middleware of the application. *)
Definition route (on_error : error -> response) (mws : list middleware)
  (h : request -> handler) (req : request) : transport :=
  match pipeline mws req with
  | inl req' => dispatch on_error (asyncHandler (h req'))
  | inr e => Answered (on_error e)
  end.

(** [authorize(roles)] as a middleware: it never touches the request. *)
Definition authorize_mw (rt : runtime) (roles : roles_arg) : middleware :=
  fun req => (req, authorize rt roles req).

(** No space in the text. *)
Definition spaceless (s : string) : bool :=
  forallb (fun c => negb (Ascii.eqb c " ")) (list_ascii_of_string s).


(** ** Regular expressions, as far as the validators use them *)

Module Regex.

Inductive re : Type :=
| Never
| Empty
| Class (p : ascii -> bool)
| Seq (r s : re)
| Alt (r s : re)
| Star (r : re).

(** [r+]. *)
Definition Plus (r : re) : re := Seq r (Star r).

Fixpoint nullable (r : re) : bool :=
  match r with
  | Never => false
  | Empty => true
  | Class _ => false
  | Seq r s => nullable r && nullable s
  | Alt r s => nullable r || nullable s
  | Star _ => true
  end.

(** What is left of [r] after reading [c]. *)
Fixpoint deriv (c : ascii) (r : re) : re :=
  match r with
  | Never => Never
  | Empty => Never
  | Class p => if p c then Empty else Never
  | Seq r s =>
      if nullable r then Alt (Seq (deriv c r) s) (deriv c s)
      else Seq (deriv c r) s
  | Alt r s => Alt (deriv c r) (deriv c s)
  | Star r => Seq (deriv c r) (Star r)
  end.

Fixpoint matches (r : re) (s : string) : bool :=
  match s with
  | EmptyString => nullable r
  | String c rest => matches (deriv c r) rest
  end.

(** The strings of [r]. *)
Inductive lang : re -> string -> Prop :=
| lang_empty : lang Empty EmptyString
| lang_class p c : p c = true -> lang (Class p) (String c EmptyString)
| lang_seq r s u v : lang r u -> lang s v -> lang (Seq r s) (u ++ v)
| lang_alt_l r s u : lang r u -> lang (Alt r s) u
| lang_alt_r r s u : lang s u -> lang (Alt r s) u
| lang_star_nil r : lang (Star r) EmptyString
| lang_star_cons r u v : lang r u -> lang (Star r) v -> lang (Star r) (u ++ v).

Definition any (c : ascii) : bool := true.

(** [/^r$/.test(s)]: the whole string. *)
Definition test_whole (r : re) (s : string) : bool := matches r s.

(** [/r/.test(s)]: somewhere in the string. *)
Definition test_any (r : re) (s : string) : bool :=
  matches (Seq (Star (Class any)) (Seq r (Star (Class any)))) s.

End Regex.

(** Every character, and some character, of a string. *)
Fixpoint every (p : ascii -> bool) (s : string) : bool :=
  match s with
  | EmptyString => true
  | String c rest => p c && every p rest
  end.

Fixpoint some (p : ascii -> bool) (s : string) : bool :=
  match s with
  | EmptyString => false
  | String c rest => p c || some p rest
  end.

Fixpoint count (p : ascii -> bool) (s : string) : nat :=
  match s with
  | EmptyString => 0
  | String c rest => (if p c then 1 else 0) + count p rest
  end.

(** Character classes, on code units below 256. [\s] is tab, line feed,
    vertical tab, form feed, carriage return, space and no-break space. *)
Definition in_range (lo hi : nat) (c : ascii) : bool :=
  (lo <=? nat_of_ascii c)%nat && (nat_of_ascii c <=? hi)%nat.

Definition is_space (c : ascii) : bool :=
  in_range 9 13 c || (nat_of_ascii c =? 32)%nat
  || (nat_of_ascii c =? 160)%nat.

Definition is_at (c : ascii) : bool := Ascii.eqb c "@".
Definition is_dot (c : ascii) : bool := Ascii.eqb c ".".

(** [[^\s@]]. *)
Definition email_char (c : ascii) : bool := negb (is_space c || is_at c).

(** [[A-Z]], [[a-z]], [[0-9]], [[^A-Za-z0-9]]. *)
Definition is_upper (c : ascii) : bool := in_range 65 90 c.
Definition is_lower (c : ascii) : bool := in_range 97 122 c.
Definition is_digit (c : ascii) : bool := in_range 48 57 c.
Definition is_special (c : ascii) : bool :=
  negb (is_upper c || is_lower c || is_digit c).

(** ** routes/authentication.js: the validators *)

(** [/^[^\s@]+@[^\s@]+\.[^\s@]+$/]. *)
Definition emailRegex : Regex.re :=
  Regex.Seq (Regex.Plus (Regex.Class email_char))
    (Regex.Seq (Regex.Class is_at)
       (Regex.Seq (Regex.Plus (Regex.Class email_char))
          (Regex.Seq (Regex.Class is_dot)
             (Regex.Plus (Regex.Class email_char))))).

Definition isValidEmail (email : string) : bool :=
  Regex.test_whole emailRegex email.

Definition isValidPassword (password : string) : bool :=
  (8 <=? String.length password)%nat
  && Regex.test_any (Regex.Class is_upper) password
  && Regex.test_any (Regex.Class is_lower) password
  && Regex.test_any (Regex.Class is_digit) password
  && Regex.test_any (Regex.Class is_special) password.

(** A non-empty string of characters of the class [[^\s@]]. *)
Definition email_part (s : string) : Prop :=
  s <> EmptyString /\ every email_char s = true.


(** ** A JavaScript [Map] with string keys, in insertion order *)

Module JsMap.

Section Operations.

Context {V : Type}.

Fixpoint get (k : string) (m : list (string * V)) : option V :=
  match m with
  | [] => None
  | (k', v) :: rest => if k =? k' then Some v else get k rest
  end.

Definition has (k : string) (m : list (string * V)) : bool :=
  match get k m with
  | Some _ => true
  | None => false
  end.

(** [m.set(k, v)]: an existing key keeps its place, a new one goes last. *)
Fixpoint set (k : string) (v : V) (m : list (string * V))
  : list (string * V) :=
  match m with
  | [] => [(k, v)]
  | (k', v') :: rest =>
      if k =? k' then (k', v) :: rest else (k', v') :: set k v rest
  end.

Fixpoint delete (k : string) (m : list (string * V)) : list (string * V) :=
  match m with
  | [] => []
  | (k', v') :: rest =>
      if k =? k' then rest else (k', v') :: delete k rest
  end.

Definition values (m : list (string * V)) : list V := map snd m.

Definition keys (m : list (string * V)) : list string := map fst m.

End Operations.

End JsMap.

(** ** routes/authentication.js: the handlers *)

(** [bcryptjs] and [jwt.sign], as the handlers use them. [jwt_sign payload
    secret expiresIn now] is [jwt.sign(payload, secret, { expiresIn })]
    called when the clock reads [now]. *)
Record services : Type := mkServices {
  bcrypt_hash : string -> string -> string;
  bcrypt_compare : string -> string -> bool;
  jwt_sign : value -> string -> string -> Z -> string
}.

(** What one run of a handler reads from outside: the clock at [Date.now()],
    at the two [new Date()] and at [jwt.sign], and the salt [bcrypt.genSalt]
    gives. *)
Record readings : Type := mkReadings {
  at_now : Z;
  at_created : Z;
  at_updated : Z;
  at_signed : Z;
  salt : string
}.

Record account : Type := mkAccount {
  a_id : string;
  a_email : string;
  a_name : string;
  a_password : string;
  a_role : string;
  a_createdAt : Z;
  a_updatedAt : Z
}.

(** [const users = new Map()]. *)
Definition users : Type := list (string * account).

(** A field of the JSON body: a string, or left out. The handlers are
    followed on such bodies only: a field holding another JSON value (an
    array passes [!email] and the regular expression through its string form,
    and is a [Map] key of its own on every request) is outside them. *)
Definition given (f : option string) : bool :=
  match f with
  | Some s => negb (s =? EmptyString)
  | None => false
  end.

Definition text (f : option string) : string :=
  match f with
  | Some s => s
  | None => EmptyString
  end.

Record credentials : Type := mkCredentials {
  c_email : option string;
  c_password : option string;
  c_name : option string
}.

(** [n.toString()] for an integer. *)
Definition toString (n : Z) : string := NilZero.string_of_int (Z.to_int n).

(** [jwt.expiresIn] of the configuration. *)
Definition expiresIn : string := "24h".

Definition generateToken (sv : services) (cfg : config) (now : Z)
  (user : account) : string :=
  jwt_sign sv
    (Obj [ ("id", Str (a_id user)); ("email", Str (a_email user));
           ("role", Str (a_role user)) ])
    (jwt_secret cfg) expiresIn now.

(** The [user] object of the responses. *)
Definition public_user (user : account) : value :=
  Obj [ ("id", Str (a_id user)); ("email", Str (a_email user));
        ("name", Str (a_name user)); ("role", Str (a_role user)) ].

Definition session (code : Z) (user : account) (token : string) : response :=
  mkResponse (Num code)
    (Obj [ ("success", Boolean true);
           ("data", Obj [("user", public_user user); ("token", Str token)]) ]).

(** [POST /register]. The handler ends with the store as it leaves it and
    with its response or the error it throws. *)
Definition register (rt : runtime) (sv : services) (cfg : config)
  (at_ : readings) (store : users) (body : credentials)
  : users * completion response :=
  if negb (given (c_email body)) || negb (given (c_password body))
     || negb (given (c_name body)) then
    (store,
     Throw (new_APIError rt "Email, password, and name are required" 400))
  else
    let email := text (c_email body) in
    let password := text (c_password body) in
    let name := text (c_name body) in
    if negb (isValidEmail email) then
      (store, Throw (new_APIError rt "Invalid email format" 400))
    else if negb (isValidPassword password) then
      (store,
       Throw (new_APIError rt
         "Password must be at least 8 characters long and contain uppercase, lowercase, number, and special character"
         400))
    else if JsMap.has email store then
      (store, Throw (new_APIError rt "User already exists" 409))
    else
      let hashedPassword := bcrypt_hash sv password (salt at_) in
      let user :=
        mkAccount (toString (at_now at_)) email name hashedPassword "user"
                  (at_created at_) (at_updated at_) in
      let store' := JsMap.set email user store in
      let token := generateToken sv cfg (at_signed at_) user in
      (store', Normal (session 201 user token)).

(** [POST /login]. *)
Definition login (rt : runtime) (sv : services) (cfg : config)
  (at_ : readings) (store : users) (body : credentials)
  : users * completion response :=
  if negb (given (c_email body)) || negb (given (c_password body)) then
    (store, Throw (new_APIError rt "Email and password are required" 400))
  else
    let email := text (c_email body) in
    let password := text (c_password body) in
    match JsMap.get email store with
    | None => (store, Throw (new_APIError rt "Invalid credentials" 401))
    | Some user =>
        if negb (bcrypt_compare sv password (a_password user)) then
          (store, Throw (new_APIError rt "Invalid credentials" 401))
        else
          let token := generateToken sv cfg (at_signed at_) user in
          (store, Normal (session 200 user token))
    end.

(** The [TypeError] of reading a property of [undefined] or [null]. *)
Definition type_error (rt : runtime) (message : string) : error :=
  mkError false (Str "TypeError") (Str message) Undefined Undefined
          (Str (stack_trace rt message)).

(** [users.get(req.user.email)]: the read of [req.user.email] throws when
    [req.user] is [undefined] or [null]; a key that is no string is in no
    store. *)
Definition current_account (rt : runtime) (store : users) (req : request)
  : completion (option (string * account)) :=
  match user req with
  | Undefined =>
      Throw (type_error rt
               "Cannot read properties of undefined (reading 'email')")
  | Null =>
      Throw (type_error rt "Cannot read properties of null (reading 'email')")
  | identity =>
      match get identity "email" with
      | Str email =>
          Normal (match JsMap.get email store with
                  | Some account => Some (email, account)
                  | None => None
                  end)
      | _ => Normal None
      end
  end.

(** [GET /me]. *)
Definition me (rt : runtime) (store : users) (req : request)
  : completion response :=
  found <- current_account rt store req ;;
  match found with
  | None => Throw (new_APIError rt "User not found" 404)
  | Some (_, account) =>
      Normal (mkResponse (Num 200)
                (Obj [ ("success", Boolean true);
                       ("data", Obj [("user", public_user account)]) ]))
  end.

Record password_change : Type := mkPasswordChange {
  currentPassword : option string;
  newPassword : option string
}.

(** [PUT /change-password]. *)
Definition change_password (rt : runtime) (sv : services) (at_ : readings)
  (store : users) (req : request) (body : password_change)
  : users * completion response :=
  if negb (given (currentPassword body)) || negb (given (newPassword body))
  then
    (store,
     Throw (new_APIError rt
              "Current password and new password are required" 400))
  else if negb (isValidPassword (text (newPassword body))) then
    (store,
     Throw (new_APIError rt
       "New password must be at least 8 characters long and contain uppercase, lowercase, number, and special character"
       400))
  else
    match current_account rt store req with
    | Throw e => (store, Throw e)
    | Normal None => (store, Throw (new_APIError rt "User not found" 404))
    | Normal (Some (email, account)) =>
        if negb (bcrypt_compare sv (text (currentPassword body))
                   (a_password account)) then
          (store, Throw (new_APIError rt "Current password is incorrect" 401))
        else
          let hashedPassword :=
            bcrypt_hash sv (text (newPassword body)) (salt at_) in
          let account' :=
            mkAccount (a_id account) (a_email account) (a_name account)
                      hashedPassword (a_role account) (a_createdAt account)
                      (at_updated at_) in
          (JsMap.set email account' store,
           Normal (mkResponse (Num 200)
                     (Obj [ ("success", Boolean true);
                            ("message",
                             Str "Password updated successfully") ])))
    end.

(** An [async] handler that ends as [c] does after [n] suspension points. *)
Definition async_handler (n : nat) (c : completion response) : handler :=
  AsyncFn (awaits n match c with
                    | Normal r => Respond r
                    | Throw e => Raise e
                    end).

(** [bcrypt.compare] accepts a password against every hash made of it. *)
Definition bcrypt_sound (sv : services) : Prop :=
  forall password salt,
    bcrypt_compare sv password (bcrypt_hash sv password salt) = true.

(** The requests the authentication router serves, and the stores it can
    reach from the empty one. *)
Inductive auth_step (rt : runtime) (sv : services) (cfg : config)
  : users -> users -> Prop :=
| step_register at_ store body :
    auth_step rt sv cfg store (fst (register rt sv cfg at_ store body))
| step_login at_ store body :
    auth_step rt sv cfg store (fst (login rt sv cfg at_ store body))
| step_change_password at_ store req body :
    auth_step rt sv cfg store (fst (change_password rt sv at_ store req body)).

Inductive auth_reachable (rt : runtime) (sv : services) (cfg : config)
  : users -> Prop :=
| reach_empty : auth_reachable rt sv cfg []
| reach_step store store' :
    auth_reachable rt sv cfg store ->
    auth_step rt sv cfg store store' ->
    auth_reachable rt sv cfg store'.

(** A stand-in for the two libraries. *)
Definition demo_services : services :=
  mkServices (fun password salt => "$2a$10$" ++ password)
             (fun password hash => hash =? "$2a$10$" ++ password)
             (fun _ _ _ _ => demo_token).

(** What every store the router can reach satisfies: one entry per key, each
    account filed under its own address, a valid one, with the role
    [user]. *)
Definition store_ok (store : users) : Prop :=
  NoDup (JsMap.keys store)
  /\ forall k account,
       In (k, account) store ->
       a_email account = k /\ a_role account = "user"
       /\ isValidEmail k = true.

Definition demo_readings : readings :=
  mkReadings 1700000000000 1700000000001 1700000000001 1700000000 "salt".

Definition ada : credentials :=
  mkCredentials (Some "ada@example.com") (Some "Passw0rd!") (Some "Ada").


Definition ada_store : users :=
  fst (register demo_runtime demo_services production_cfg demo_readings []
         ada).

Definition ada_request : request :=
  mkRequest None (Obj [ ("id", Str "1700000000000");
                        ("email", Str "ada@example.com");
                        ("role", Str "user") ]).

Definition ada_change : password_change :=
  mkPasswordChange (Some "Passw0rd!") (Some "N3w#Passw0rd").


(** ** routes/payment.js *)

(** [a === b]. Two objects are never the same one here: each request has its
    own. *)
Definition strict_eq (a b : value) : bool :=
  match a, b with
  | Undefined, Undefined => true
  | Null, Null => true
  | Boolean x, Boolean y => Bool.eqb x y
  | Num x, Num y => (x =? y)%Z
  | Str x, Str y => x =? y
  | _, _ => false
  end.

(** A [Date], by its time value. *)
Definition date (t : Z) : value := Num t.

(** A payment record. Amounts are integer-valued numbers; the fields a
    record gains later are [undefined] ([None], [false]) until then. *)
Record payment : Type := mkPayment {
  p_id : string;
  p_userId : value;
  p_amount : Z;
  p_currency : string;
  p_paymentMethod : string;
  p_status : string;
  p_createdAt : Z;
  p_processingFee : value;
  p_processedAt : option Z;
  p_updatedAt : option Z;
  p_error : value;
  p_refunded : bool;
  p_refundAmount : option Z;
  p_refundReason : option string;
  p_refundedAt : option Z
}.

(** [const payments = new Map()]. *)
Definition payments : Type := list (string * payment).

Record payment_request : Type := mkPaymentRequest {
  pr_amount : option Z;
  pr_currency : option string;
  pr_paymentMethod : option string
}.

Record refund_request : Type := mkRefundRequest {
  rf_amount : option Z;
  rf_reason : option string
}.

(** [req.user.id]; the read throws when [req.user] is [undefined] or
    [null]. *)
Definition identity_id (rt : runtime) (req : request) : completion value :=
  match user req with
  | Undefined =>
      Throw (type_error rt
               "Cannot read properties of undefined (reading 'id')")
  | Null =>
      Throw (type_error rt "Cannot read properties of null (reading 'id')")
  | identity => Normal (get identity "id")
  end.

(** [!amount || amount <= 0]. *)
Definition bad_amount (amount : option Z) : bool :=
  match amount with
  | None => true
  | Some a => (a =? 0)%Z || (a <=? 0)%Z
  end.

Definition optional (f : option string) : value :=
  match f with
  | Some s => Str s
  | None => Undefined
  end.

(** [POST /create]. *)
Definition create_payment (rt : runtime) (now created : Z)
  (store : payments) (req : request) (body : payment_request)
  : payments * completion response :=
  let amount := pr_amount body in
  let currency :=
    match pr_currency body with
    | None => "USD"
    | Some c => c
    end in
  if bad_amount amount then
    (store, Throw (new_APIError rt "Valid amount is required" 400))
  else if negb (given (pr_paymentMethod body)) then
    (store, Throw (new_APIError rt "Payment method is required" 400))
  else
    match amount, identity_id rt req with
    | None, _ => (store, Throw (new_APIError rt "Valid amount is required" 400))
    | _, Throw e => (store, Throw e)
    | Some amount, Normal userId =>
        let payment :=
          mkPayment (toString now) userId amount currency
                    (text (pr_paymentMethod body)) "pending" created
                    Undefined None None Undefined false None None None in
        (JsMap.set (p_id payment) payment store,
         Normal (mkResponse (Num 201)
                   (Obj [ ("success", Boolean true);
                          ("data",
                           Obj [ ("paymentId", Str (p_id payment));
                                 ("amount", Num amount);
                                 ("currency", Str currency);
                                 ("status", Str (p_status payment)) ]) ])))
    end.

(** How [processPayment] ends: resolved with an id, a fee and a time, its
    [status] being ['succeeded'], or rejected. *)
Inductive gateway : Type :=
| Charged (id : string) (fee : value) (timestamp : Z)
| Declined.

(** The payment a request may act on: found, and owned by the identity. *)
Definition owned_payment (rt : runtime) (store : payments) (req : request)
  (id : string) : completion payment :=
  match JsMap.get id store with
  | None => Throw (new_APIError rt "Payment not found" 404)
  | Some payment =>
      userId <- identity_id rt req ;;
      if negb (strict_eq (p_userId payment) userId) then
        Throw (new_APIError rt "Unauthorized" 403)
      else Normal payment
  end.

Definition with_outcome (p : payment) (status : string) (fee : value)
  (processedAt : option Z) (error : value) (updated : Z) : payment :=
  mkPayment (p_id p) (p_userId p) (p_amount p) (p_currency p)
            (p_paymentMethod p) status (p_createdAt p) fee processedAt
            (Some updated) error (p_refunded p) (p_refundAmount p)
            (p_refundReason p) (p_refundedAt p).

(** [POST /process/:id]. *)
Definition process_payment (rt : runtime) (updated : Z) (outcome : gateway)
  (store : payments) (req : request) (id : string)
  : payments * completion response :=
  match owned_payment rt store req id with
  | Throw e => (store, Throw e)
  | Normal payment =>
      if negb (p_status payment =? "pending") then
        (store,
         Throw (new_APIError rt
                  ("Payment cannot be processed (status: "
                   ++ p_status payment ++ ")") 400))
      else
        match outcome with
        | Charged _ fee timestamp =>
            let updatedPayment :=
              with_outcome payment "succeeded" fee (Some timestamp)
                           (p_error payment) updated in
            (JsMap.set id updatedPayment store,
             Normal (mkResponse (Num 200)
                       (Obj [ ("success", Boolean true);
                              ("data",
                               Obj [ ("paymentId", Str id);
                                     ("amount", Num (p_amount payment));
                                     ("currency", Str (p_currency payment));
                                     ("status", Str "succeeded");
                                     ("processingFee", fee);
                                     ("timestamp", date timestamp) ]) ])))
        | Declined =>
            let failedPayment :=
              with_outcome payment "failed" (p_processingFee payment)
                           (p_processedAt payment)
                           (Str "Payment processing failed") updated in
            (JsMap.set id failedPayment store,
             Throw (new_APIError rt "Payment processing failed" 400))
        end
  end.

(** [amount || payment.amount]. *)
Definition refund_amount (amount : option Z) (payment : payment) : Z :=
  match amount with
  | Some a => if (a =? 0)%Z then p_amount payment else a
  | None => p_amount payment
  end.

(** [POST /:id/refund]. *)
Definition refund_payment (rt : runtime) (refundedAt updated : Z)
  (store : payments) (req : request) (id : string) (body : refund_request)
  : payments * completion response :=
  match owned_payment rt store req id with
  | Throw e => (store, Throw e)
  | Normal payment =>
      if negb (p_status payment =? "succeeded") then
        (store,
         Throw (new_APIError rt "Only succeeded payments can be refunded" 400))
      else if p_refunded payment then
        (store,
         Throw (new_APIError rt "Payment has already been refunded" 400))
      else
        let refundAmount := refund_amount (rf_amount body) payment in
        if (p_amount payment <? refundAmount)%Z then
          (store,
           Throw (new_APIError rt
                    "Refund amount cannot exceed payment amount" 400))
        else
          let updatedPayment :=
            mkPayment (p_id payment) (p_userId payment) (p_amount payment)
                      (p_currency payment) (p_paymentMethod payment)
                      "refunded" (p_createdAt payment)
                      (p_processingFee payment) (p_processedAt payment)
                      (Some updated) (p_error payment) true
                      (Some refundAmount) (rf_reason body)
                      (Some refundedAt) in
          (JsMap.set id updatedPayment store,
           Normal (mkResponse (Num 200)
                     (Obj [ ("success", Boolean true);
                            ("data",
                             Obj [ ("paymentId", Str id);
                                   ("refundAmount", Num refundAmount);
                                   ("status", Str "refunded");
                                   ("timestamp", date refundedAt) ]) ])))
  end.

(** The requests that change the payments, and the stores they reach. *)
Inductive payment_step (rt : runtime) : payments -> payments -> Prop :=
| step_create now created store req body :
    payment_step rt store
      (fst (create_payment rt now created store req body))
| step_process updated outcome store req id :
    payment_step rt store
      (fst (process_payment rt updated outcome store req id))
| step_refund refundedAt updated store req id body :
    payment_step rt store
      (fst (refund_payment rt refundedAt updated store req id body)).

Inductive payment_reachable (rt : runtime) : payments -> Prop :=
| pay_empty : payment_reachable rt []
| pay_step store store' :
    payment_reachable rt store ->
    payment_step rt store store' ->
    payment_reachable rt store'.

(** What every payment of a reachable store satisfies. *)
Definition payment_ok (k : string) (payment : payment) : Prop :=
  p_id payment = k
  /\ (0 < p_amount payment)%Z
  /\ (p_status payment = "pending" \/ p_status payment = "succeeded"
      \/ p_status payment = "failed" \/ p_status payment = "refunded")
  /\ (p_refunded payment = true <-> p_status payment = "refunded")
  /\ (forall a, p_refundAmount payment = Some a ->
                (a <= p_amount payment)%Z).


Definition pay_request : request := mkRequest None demo_claims.
Definition other_request : request := mkRequest None user_identity.

Definition pay_body : payment_request :=
  mkPaymentRequest (Some 1000%Z) None (Some "card").

Definition pay_id : string := toString 1700000000000.

Definition pending_store : payments :=
  fst (create_payment demo_runtime 1700000000000 1700000000001 []
         pay_request pay_body).

Definition paid_store : payments :=
  fst (process_payment demo_runtime 1700000001000
         (Charged "1700000001000" (Num 29) 1700000001000)
         pending_store pay_request pay_id).

Definition full_refund : refund_request :=
  mkRefundRequest None (Some "requested by customer").



(** ** routes/graphql.js: the resolvers *)

(** Dates are kept by their time value; [toISOString] renders each one as
    one string. *)
Record post : Type := mkPost {
  post_id : string;
  post_title : string;
  post_content : string;
  post_author : value;
  post_createdAt : Z;
  post_updatedAt : Z
}.

Record comment : Type := mkComment {
  comment_id : string;
  comment_content : string;
  comment_author : value;
  comment_postId : string;
  comment_createdAt : Z
}.

(** [let posts = new Map(); let comments = new Map();]. *)
Record blog : Type := mkBlog {
  posts : list (string * post);
  comments : list (string * comment)
}.

(** [throw new Error(message)]. *)
Definition new_Error (rt : runtime) (message : string) : error :=
  mkError false (Str "Error") (Str message) Undefined Undefined
          (Str (stack_trace rt message)).

(** [args.title || post.title]. *)
Definition or_keep (given_text : option string) (old : string) : string :=
  match given_text with
  | Some s => if s =? EmptyString then old else s
  | None => old
  end.

(** [addPost]. [context] is [context.user]. *)
Definition addPost (rt : runtime) (now created updated : Z) (b : blog)
  (context : value) (title content : string) : blog * completion post :=
  if negb (truthy context) then
    (b, Throw (new_Error rt "Authentication required"))
  else
    let p := mkPost (toString now) title content (get context "email")
                    created updated in
    (mkBlog (JsMap.set (post_id p) p (posts b)) (comments b), Normal p).

(** [updatePost]. *)
Definition updatePost (rt : runtime) (updated : Z) (b : blog)
  (context : value) (id : string) (title content : option string)
  : blog * completion post :=
  if negb (truthy context) then
    (b, Throw (new_Error rt "Authentication required"))
  else
    match JsMap.get id (posts b) with
    | None => (b, Throw (new_Error rt "Post not found"))
    | Some p =>
        if negb (strict_eq (post_author p) (get context "email")) then
          (b, Throw (new_Error rt "Not authorized to update this post"))
        else
          let updatedPost :=
            mkPost (post_id p) (or_keep title (post_title p))
                   (or_keep content (post_content p)) (post_author p)
                   (post_createdAt p) updated in
          (mkBlog (JsMap.set id updatedPost (posts b)) (comments b),
           Normal updatedPost)
    end.

(** [for (const [commentId, comment] of comments)
       if (comment.postId === id) comments.delete(commentId)]. *)
Definition delete_comments_of (id : string) (cs : list (string * comment))
  : list (string * comment) :=
  fold_left
    (fun acc entry =>
       if comment_postId (snd entry) =? id then JsMap.delete (fst entry) acc
       else acc)
    cs cs.

(** The comments the loop keeps. *)
Definition on_other_post (id : string) (entry : string * comment) : bool :=
  negb (comment_postId (snd entry) =? id).

(** [deletePost]. *)
Definition deletePost (rt : runtime) (b : blog) (context : value)
  (id : string) : blog * completion post :=
  if negb (truthy context) then
    (b, Throw (new_Error rt "Authentication required"))
  else
    match JsMap.get id (posts b) with
    | None => (b, Throw (new_Error rt "Post not found"))
    | Some p =>
        if negb (strict_eq (post_author p) (get context "email")) then
          (b, Throw (new_Error rt "Not authorized to delete this post"))
        else
          (mkBlog (JsMap.delete id (posts b))
                  (delete_comments_of id (comments b)),
           Normal p)
    end.

(** [addComment]. *)
Definition addComment (rt : runtime) (now created : Z) (b : blog)
  (context : value) (postId content : string) : blog * completion comment :=
  if negb (truthy context) then
    (b, Throw (new_Error rt "Authentication required"))
  else if negb (JsMap.has postId (posts b)) then
    (b, Throw (new_Error rt "Post not found"))
  else
    let c := mkComment (toString now) content (get context "email") postId
                       created in
    (mkBlog (posts b) (JsMap.set (comment_id c) c (comments b)), Normal c).

(** [deleteComment]. *)
Definition deleteComment (rt : runtime) (b : blog) (context : value)
  (id : string) : blog * completion comment :=
  if negb (truthy context) then
    (b, Throw (new_Error rt "Authentication required"))
  else
    match JsMap.get id (comments b) with
    | None => (b, Throw (new_Error rt "Comment not found"))
    | Some c =>
        if negb (strict_eq (comment_author c) (get context "email")) then
          (b, Throw (new_Error rt "Not authorized to delete this comment"))
        else (mkBlog (posts b) (JsMap.delete id (comments b)), Normal c)
    end.

(** The query [post] and the field [Comment.post]. *)
Definition query_post (b : blog) (id : string) : option post :=
  JsMap.get id (posts b).

Definition comment_post (b : blog) (c : comment) : option post :=
  JsMap.get (comment_postId c) (posts b).

(** The mutations, and the states they reach. *)
Inductive blog_step (rt : runtime) : blog -> blog -> Prop :=
| step_addPost now created updated b context title content :
    blog_step rt b
      (fst (addPost rt now created updated b context title content))
| step_updatePost updated b context id title content :
    blog_step rt b (fst (updatePost rt updated b context id title content))
| step_deletePost b context id :
    blog_step rt b (fst (deletePost rt b context id))
| step_addComment now created b context postId content :
    blog_step rt b (fst (addComment rt now created b context postId content))
| step_deleteComment b context id :
    blog_step rt b (fst (deleteComment rt b context id)).

Inductive blog_reachable (rt : runtime) : blog -> Prop :=
| blog_empty : blog_reachable rt (mkBlog [] [])
| blog_next b b' :
    blog_reachable rt b -> blog_step rt b b' -> blog_reachable rt b'.

(** One entry per key, each record under its own id, and every comment on a
    post that is there. *)
Definition blog_ok (b : blog) : Prop :=
  NoDup (JsMap.keys (posts b))
  /\ NoDup (JsMap.keys (comments b))
  /\ (forall k p, In (k, p) (posts b) -> post_id p = k)
  /\ (forall k c, In (k, c) (comments b) ->
        comment_id c = k /\ JsMap.has (comment_postId c) (posts b) = true).


Definition ada_context : value := user ada_request.

Definition first_post_id : string := toString 1700000000000.

Definition one_post : blog :=
  fst (addPost demo_runtime 1700000000000 1700000000001 1700000000001
         (mkBlog [] []) ada_context "Hello" "A first post").

Definition first_comment : comment :=
  mkComment (toString 1700000000500) "Welcome" (Str "ada@example.com")
            first_post_id 1700000000501.

Definition one_comment : blog :=
  fst (addComment demo_runtime 1700000000500 1700000000501 one_post
         ada_context first_post_id "Welcome").


Definition paid_payment : payment :=
  mkPayment pay_id (Str "42") 1000 "USD" "card" "succeeded" 1700000000001
            (Num 29) (Some 1700000001000%Z) (Some 1700000001000%Z) Undefined
            false None None None.


Example payment_not_found_production :
  (status_code (respond production_cfg payment_not_found),
   wire (respond production_cfg payment_not_found))
  = (Num 404,
     Some (Obj [("error", Obj [("message", Str "Payment not found");
                               ("status", Num 404)])])).
Proof. reflexivity. Qed.

Example auth_bare : snd (auth demo_runtime production_cfg 2000 bare_request)
  = Next (Some (new_APIError demo_runtime "No authentication token provided" 401)).
Proof. reflexivity. Qed.

Example auth_bearer : auth demo_runtime production_cfg 2000 bearer_request
  = (set_user bearer_request demo_claims, Next None).
Proof. reflexivity. Qed.

Example auth_expired :
  snd (auth demo_runtime production_cfg 5000 bearer_request)
  = Next (Some (new_APIError demo_runtime "Token has expired" 401)).
Proof. reflexivity. Qed.

Example auth_early :
  snd (auth demo_runtime production_cfg 1500 early_request)
  = Next (Some (thrown (demo_jwt_error "NotBeforeError" "jwt not active"))).
Proof. reflexivity. Qed.

(** * Properties *)

(** ** JavaScript values *)

Lemma truthy_to_json (v : value) :
  truthy v = true -> exists j, to_json v = Some j.
Proof.
  destruct v; simpl; intros H; try discriminate; eexists; reflexivity.
Qed.

Lemma spread_falsy (v : value) : truthy v = false -> spread v = [].
Proof.
  destruct v as [ | | b | z | | s | ps | xs]; simpl; intros H;
    try reflexivity; try discriminate.
  destruct s; [reflexivity | discriminate].
Qed.

Lemma to_json_obj (ps : list (string * value)) :
  to_json (Obj ps) = Some (Obj (json_props ps)).
Proof.
  reflexivity.
Qed.

(** ** errorHandler *)

(** The response of [errorHandler], field by field. *)
Lemma respond_eq (cfg : config) (err : error) :
  respond cfg err =
  mkResponse (shown_status err)
    (Obj [("error",
           Obj ([("message", shown_message err); ("status", shown_status err)]
                ++ shown_details err ++ shown_stack cfg err)%list)]).
Proof.
  unfold respond, errorHandler, shown_status, shown_details, shown_stack,
    shown_message, orelse, andalso.
  cbn [snd truthy].
  destruct (truthy (e_details err)) eqn:Hd.
  - destruct (development cfg); reflexivity.
  - rewrite (spread_falsy _ Hd). destruct (development cfg); reflexivity.
Qed.

Lemma payload_eq (cfg : config) (err : error) :
  payload (respond cfg err) =
  ([("message", shown_message err); ("status", shown_status err)]
   ++ shown_details err ++ shown_stack cfg err)%list.
Proof. rewrite respond_eq. reflexivity. Qed.

Lemma envelope_eq (cfg : config) (err : error) :
  envelope (respond cfg err) = json_props (payload (respond cfg err)).
Proof.
  rewrite payload_eq. unfold envelope, wire. rewrite respond_eq.
  cbn [body]. rewrite to_json_obj.
  cbn [json_props]. rewrite to_json_obj. reflexivity.
Qed.

Lemma wire_eq (cfg : config) (err : error) :
  wire (respond cfg err) = Some (Obj [("error", Obj (envelope (respond cfg err)))]).
Proof.
  rewrite envelope_eq, payload_eq. unfold wire. rewrite respond_eq.
  cbn [body]. rewrite to_json_obj. cbn [json_props]. rewrite to_json_obj.
  reflexivity.
Qed.

Lemma shown_status_truthy (err : error) : truthy (shown_status err) = true.
Proof.
  unfold shown_status. destruct (truthy (e_status err)) eqn:H; auto.
Qed.

Lemma shown_status_json (err : error) :
  exists j, to_json (shown_status err) = Some j.
Proof. apply truthy_to_json, shown_status_truthy. Qed.

Lemma APIError_details_truthy (message : string) (status details : value)
  (stack : string) :
  truthy (e_details (APIError message status details stack)) = truthy details
  /\ (truthy details = true ->
      e_details (APIError message status details stack) = details).
Proof. destruct details; simpl; split; intros; try discriminate; reflexivity. Qed.

(** Outside development mode no error puts a [stack] key in the payload. *)
Lemma no_stack_outside_development (cfg : config) (err : error) :
  development cfg = false ->
  has_key "stack" (payload (respond cfg err)) = false
  /\ has_key "stack" (envelope (respond cfg err)) = false.
Proof.
  intros Hdev. rewrite envelope_eq, payload_eq.
  unfold shown_stack, shown_details. rewrite Hdev.
  destruct (shown_status_json err) as [j Hj].
  destruct (truthy (e_details err)) eqn:Hd.
  - destruct (truthy_to_json _ Hd) as [d Hdj].
    cbn. rewrite Hj, Hdj. destruct (to_json (shown_message err)); auto.
  - cbn. rewrite Hj. destruct (to_json (shown_message err)); auto.
Qed.

(** In development mode the [stack] key carries [err.stack], and reaches the
    client whenever [err.stack] is not [undefined]. *)
Lemma stack_in_development (cfg : config) (err : error) :
  development cfg = true ->
  lookup "stack" (payload (respond cfg err)) = e_stack err
  /\ forall j, to_json (e_stack err) = Some j ->
       has_key "stack" (envelope (respond cfg err)) = true
       /\ lookup "stack" (envelope (respond cfg err)) = j.
Proof.
  intros Hdev. rewrite envelope_eq, payload_eq.
  unfold shown_stack, shown_details. rewrite Hdev.
  destruct (shown_status_json err) as [j Hj].
  destruct (truthy (e_details err)) eqn:Hd.
  - destruct (truthy_to_json _ Hd) as [d Hdj].
    split; [reflexivity | ]. intros k Hk.
    cbn. rewrite Hj, Hdj, Hk. destruct (to_json (shown_message err)); auto.
  - split; [reflexivity | ]. intros k Hk.
    cbn. rewrite Hj, Hk. destruct (to_json (shown_message err)); auto.
Qed.

(** C2. A Structured Error, built by [new APIError(message, status, details)]
    with an HTTP status code (a non-zero integer), is answered with that
    status as HTTP status code and in the envelope, with its message
    verbatim, with [details] attached when a (truthy) value was given and
    left out when none was, and the body that reaches the client has the
    shape [{ error: { message, status, details?, stack? } }]. *)
Theorem structured_error_envelope (cfg : config) (message : string)
  (code : Z) (details : value) (stack : string) :
  code <> 0%Z ->
  let r := respond cfg (APIError message (Num code) details stack) in
  status_code r = Num code
  /\ body r = Obj [("error", Obj (payload r))]
  /\ payload r =
       ([("message", Str message); ("status", Num code)]
        ++ (if truthy details then [("details", details)] else [])
        ++ (if development cfg then [("stack", Str stack)] else []))%list
  /\ wire r = Some (Obj [("error", Obj (envelope r))])
  /\ envelope_shape (envelope r) = true.
Proof.
  intros Hcode r.
  assert (Hst : shown_status (APIError message (Num code) details stack)
                = Num code).
  { unfold shown_status. cbn. destruct (Z.eqb_spec code 0); [contradiction | ].
    reflexivity. }
  assert (Hpay : payload r =
       ([("message", Str message); ("status", Num code)]
        ++ (if truthy details then [("details", details)] else [])
        ++ (if development cfg then [("stack", Str stack)] else []))%list).
  { unfold r. rewrite payload_eq, Hst. unfold shown_details, shown_stack.
    destruct (APIError_details_truthy message (Num code) details stack)
      as [Ht Hd].
    rewrite Ht. destruct (truthy details); [rewrite Hd by reflexivity | ];
      reflexivity. }
  assert (Henv : envelope r = json_props (payload r))
    by (unfold r; apply envelope_eq).
  refine (conj _ (conj _ (conj Hpay (conj _ _)))).
  - unfold r. rewrite respond_eq. exact Hst.
  - unfold r. rewrite payload_eq, respond_eq. reflexivity.
  - unfold r. apply wire_eq.
  - rewrite Henv, Hpay.
    destruct (truthy details) eqn:Hd.
    + destruct (truthy_to_json _ Hd) as [j Hj].
      destruct (development cfg); cbn; rewrite Hj; reflexivity.
    + destruct (development cfg); reflexivity.
Qed.

Lemma structured_error_envelope_witness :
  status_code (respond production_cfg payment_not_found) = Num 404
  /\ body (respond production_cfg payment_not_found)
     = Obj [("error", Obj (payload (respond production_cfg payment_not_found)))]
  /\ payload (respond production_cfg payment_not_found)
     = [("message", Str "Payment not found"); ("status", Num 404)]
  /\ wire (respond production_cfg payment_not_found)
     = Some (Obj [("error",
                   Obj (envelope (respond production_cfg payment_not_found)))])
  /\ envelope_shape (envelope (respond production_cfg payment_not_found))
     = true.
Proof.
  apply (structured_error_envelope production_cfg "Payment not found" 404
           Undefined "Error: Payment not found").
  discriminate.
Defined.

(** [err.status || 500] and [err.details && ...] go by truthiness: a status
    of 0 is answered with 500, and [details] of 0 is left out. *)
Example zero_status_defaults :
  status_code (respond production_cfg zero_status) = Num 500.
Proof. reflexivity. Qed.

Example zero_details_left_out :
  payload (respond production_cfg zero_details)
  = [("message", Str "Quota exceeded"); ("status", Num 429)].
Proof. reflexivity. Qed.

(** The status of the error is the HTTP status code of the response. *)
Lemma respond_status (cfg : config) (err : error) (code : Z) :
  e_status err = Num code -> code <> 0%Z ->
  status_code (respond cfg err) = Num code.
Proof.
  intros Hs Hc. rewrite respond_eq. cbn [status_code]. unfold shown_status.
  rewrite Hs. cbn. destruct (Z.eqb_spec code 0); [contradiction | reflexivity].
Qed.

(** An error that is no [APIError] but carries a status keeps it (C10): the
    parse failure of a malformed JSON body is answered with 400. *)
Example parse_failure_keeps_status :
  (e_api parse_failure, status_code (respond production_cfg parse_failure))
  = (false, Num 400).
Proof. reflexivity. Qed.



Example null_dereference_production :
  (status_code (respond production_cfg null_dereference),
   wire (respond production_cfg null_dereference))
  = (Num 500,
     Some (Obj [("error", Obj [("message", Str "Internal Server Error");
                               ("status", Num 500)])])).
Proof. reflexivity. Qed.

Lemma to_json_undefined (v : value) : to_json v = None <-> v = Undefined.
Proof. destruct v; simpl; split; intros H; try discriminate; reflexivity. Qed.

(** In development mode an error whose [stack] is [undefined] leaves no
    [stack] key in what the client receives. *)
Lemma no_stack_without_trace (cfg : config) (err : error) :
  development cfg = true ->
  e_stack err = Undefined ->
  has_key "stack" (envelope (respond cfg err)) = false.
Proof.
  intros Hdev Hs. rewrite envelope_eq, payload_eq.
  unfold shown_stack, shown_details. rewrite Hdev, Hs.
  destruct (shown_status_json err) as [j Hj].
  destruct (truthy (e_details err)) eqn:Hd.
  - destruct (truthy_to_json _ Hd) as [d Hdj].
    cbn. rewrite Hj, Hdj. destruct (to_json (shown_message err)); auto.
  - cbn. rewrite Hj. destruct (to_json (shown_message err)); auto.
Qed.

Lemma development_spec (cfg : config) :
  development cfg = true <-> server_env cfg = "development".
Proof. unfold development. apply String.eqb_eq. Qed.

(** C7, as stated: every error has a [stack] field in development mode. A
    handler that rejects with a plain object raises an error with no
    [stack]; in development mode the client receives no [stack] field for
    it. *)
Lemma stack_missing_in_development_counterexample :
  server_env development_cfg = "development"
  /\ has_key "stack" (envelope (respond development_cfg traceless_failure))
     = false
  /\ wire (respond development_cfg traceless_failure)
     = Some (Obj [("error", Obj [("message", Str "Internal Server Error");
                                 ("status", Num 500)])]).
Proof. repeat split. Qed.

(** C7, amended. For every error, what the client receives has a [stack]
    field exactly when the configured mode is [development] and the error
    has a [stack] (it is not [undefined]); in any other mode no [stack] key
    is written at all; in development mode the key holds [err.stack] as it
    is, so the field is the error's trace, non-empty whenever that is. *)
Theorem stack_iff_development (cfg : config) (err : error) :
  (has_key "stack" (envelope (respond cfg err)) = true
   <-> server_env cfg = "development" /\ e_stack err <> Undefined)
  /\ (server_env cfg <> "development" ->
      has_key "stack" (payload (respond cfg err)) = false)
  /\ (server_env cfg = "development" ->
      lookup "stack" (payload (respond cfg err)) = e_stack err)
  /\ (forall s, server_env cfg = "development" ->
                e_stack err = Str s ->
                lookup "stack" (envelope (respond cfg err)) = Str s).
Proof.
  destruct (development cfg) eqn:Hdev.
  - pose proof (proj1 (development_spec cfg) Hdev) as Henv.
    destruct (stack_in_development cfg err Hdev) as [Hpay Hj].
    refine (conj _ (conj _ (conj _ _))).
    + destruct (to_json (e_stack err)) as [j | ] eqn:E.
      * destruct (Hj j eq_refl) as [Hk _]. split; [ | intros _; exact Hk].
        intros _. split; [exact Henv | ].
        intros Hu. rewrite Hu in E. discriminate.
      * apply to_json_undefined in E.
        rewrite (no_stack_without_trace cfg err Hdev E). split.
        -- discriminate.
        -- intros [_ Hne]. contradiction.
    + intros Hne. contradiction.
    + intros _. exact Hpay.
    + intros s _ Hs. destruct (Hj (Str s)) as [_ Hl]; [ | exact Hl].
      rewrite Hs. reflexivity.
  - assert (Henv : server_env cfg <> "development").
    { intros H. apply development_spec in H. congruence. }
    destruct (no_stack_outside_development cfg err Hdev) as [Hp He].
    refine (conj _ (conj _ (conj _ _))).
    + rewrite He. split; [discriminate | intros [H _]; contradiction].
    + intros _. exact Hp.
    + intros H. contradiction.
    + intros s H. contradiction.
Qed.

Example stack_in_development_null_dereference :
  lookup "stack" (envelope (respond development_cfg null_dereference))
  = Str "TypeError: Cannot read properties of undefined".
Proof. reflexivity. Qed.

(** C10. An error that is no [APIError] but carries a truthy [status] is
    answered with that status, as HTTP status code and in the envelope, while
    the message is still the fixed string; a truthy [details] is attached for
    such an error too. *)
Theorem unrecognized_error_keeps_status (cfg : config) (err : error) :
  e_api err = false ->
  truthy (e_status err) = true ->
  status_code (respond cfg err) = e_status err
  /\ lookup "status" (payload (respond cfg err)) = e_status err
  /\ lookup "message" (payload (respond cfg err))
     = Str "Internal Server Error"
  /\ (truthy (e_details err) = true ->
      lookup "details" (payload (respond cfg err)) = e_details err
      /\ has_key "details" (envelope (respond cfg err)) = true).
Proof.
  intros Hapi Hst.
  assert (Hs : shown_status err = e_status err)
    by (unfold shown_status; rewrite Hst; reflexivity).
  assert (Hmsg : shown_message err = Str "Internal Server Error")
    by (unfold shown_message; rewrite Hapi; reflexivity).
  refine (conj _ (conj _ (conj _ _))).
  - rewrite respond_eq. exact Hs.
  - rewrite payload_eq, Hs. reflexivity.
  - rewrite payload_eq, Hmsg. reflexivity.
  - intros Hd. rewrite envelope_eq, payload_eq, Hmsg, Hs.
    unfold shown_details. rewrite Hd.
    destruct (truthy_to_json _ Hst) as [j Hj].
    destruct (truthy_to_json _ Hd) as [d Hdj].
    split; [reflexivity | ]. cbn. rewrite Hj, Hdj. reflexivity.
Qed.

Lemma unrecognized_error_keeps_status_witness :
  status_code (respond production_cfg rate_limited) = Num 429
  /\ lookup "status" (payload (respond production_cfg rate_limited)) = Num 429
  /\ lookup "message" (payload (respond production_cfg rate_limited))
     = Str "Internal Server Error"
  /\ (truthy (e_details rate_limited) = true ->
      lookup "details" (payload (respond production_cfg rate_limited))
      = Obj [("retryAfter", Num 30)]
      /\ has_key "details" (envelope (respond production_cfg rate_limited))
         = true).
Proof.
  apply (unrecognized_error_keeps_status production_cfg rate_limited);
    reflexivity.
Defined.

(** ** The header and the token *)

Lemma prefix_split (p s : string) :
  String.prefix p s = true -> exists rest, s = p ++ rest.
Proof.
  revert s. induction p as [ | a p IH]; intros s H.
  - exists s. reflexivity.
  - destruct s as [ | b s]; simpl in H; [discriminate | ].
    destruct (ascii_dec a b) as [-> | ]; [ | discriminate].
    destruct (IH s H) as [rest ->]. exists rest. reflexivity.
Qed.

Lemma split_on_nonempty (sep : ascii) (s : string) : split_on sep s <> [].
Proof.
  destruct s as [ | c s]; simpl; [discriminate | ].
  destruct (Ascii.eqb c sep); [discriminate | ].
  destruct (split_on sep s); discriminate.
Qed.

(** After the scheme, the token is the text up to the next space. *)
Lemma extract_token_bearer (rest : string) :
  extract_token (Str ("Bearer " ++ rest))
  = Str (hd EmptyString (split_on " " rest)).
Proof.
  unfold extract_token, split, item. cbn.
  destruct (split_on " " rest) as [ | piece pieces] eqn:E.
  - exfalso. exact (split_on_nonempty _ _ E).
  - reflexivity.
Qed.

Lemma split_on_no_sep (sep : ascii) (s : string) :
  forallb (fun c => negb (Ascii.eqb c sep)) (list_ascii_of_string s) = true ->
  split_on sep s = [s].
Proof.
  induction s as [ | c s IH]; simpl; intros H; [reflexivity | ].
  apply andb_prop in H. destruct H as [Hc Hs].
  apply negb_true_iff in Hc. rewrite Hc, (IH Hs). reflexivity.
Qed.

Lemma extract_token_exact (token : string) :
  forallb (fun c => negb (Ascii.eqb c " ")) (list_ascii_of_string token) = true ->
  extract_token (Str ("Bearer " ++ token)) = Str token.
Proof.
  intros H. rewrite extract_token_bearer, (split_on_no_sep _ _ H).
  reflexivity.
Qed.

(** A header that passes the scheme test always yields a string token. *)
Lemma extract_token_defined (h : string) :
  String.prefix "Bearer " h = true -> exists t, extract_token (Str h) = Str t.
Proof.
  intros H. destruct (prefix_split _ _ H) as [rest ->].
  rewrite extract_token_bearer. eexists. reflexivity.
Qed.

Lemma prefix_nonempty (h : string) :
  String.prefix "Bearer " h = true -> (h =? EmptyString) = false.
Proof. destruct h; [discriminate | reflexivity]. Qed.

(** ** auth *)

(** The four ways [auth] ends, by the header and the verdict of the
    library. *)
Lemma auth_no_header (rt : runtime) (cfg : config) (now : Z) (req : request) :
  authorization req = None \/ authorization req = Some EmptyString ->
  auth rt cfg now req
  = (req, Next (Some (new_APIError rt "No authentication token provided" 401))).
Proof.
  intros [H | H]; unfold auth, header_authorization; rewrite H; reflexivity.
Qed.

Lemma auth_bad_scheme (rt : runtime) (cfg : config) (now : Z) (req : request)
  (h : string) :
  authorization req = Some h -> h <> EmptyString ->
  String.prefix "Bearer " h = false ->
  auth rt cfg now req
  = (req, Next (Some (new_APIError rt "Invalid token format" 401))).
Proof.
  intros H Hne Hp. unfold auth, header_authorization. rewrite H.
  cbn [truthy startsWith]. rewrite Hp.
  destruct (String.eqb_spec h EmptyString); [contradiction | reflexivity].
Qed.

Lemma auth_verified (rt : runtime) (cfg : config) (now : Z) (req : request)
  (h : string) (decoded : value) :
  authorization req = Some h ->
  String.prefix "Bearer " h = true ->
  jwt_verify rt (extract_token (Str h)) (jwt_secret cfg) now
  = Verified decoded ->
  auth rt cfg now req = (set_user req decoded, Next None).
Proof.
  intros H Hp Hv. unfold auth, header_authorization, verify. rewrite H.
  cbn [truthy startsWith]. rewrite Hp, (prefix_nonempty _ Hp), Hv.
  reflexivity.
Qed.

Lemma auth_rejected (rt : runtime) (cfg : config) (now : Z) (req : request)
  (h : string) (e : jwt_error) :
  authorization req = Some h ->
  String.prefix "Bearer " h = true ->
  jwt_verify rt (extract_token (Str h)) (jwt_secret cfg) now = Rejected e ->
  auth rt cfg now req
  = (req,
     Next (Some
       (if jwt_name e =? "TokenExpiredError"
        then new_APIError rt "Token has expired" 401
        else if jwt_name e =? "JsonWebTokenError"
             then new_APIError rt "Invalid token" 401
             else thrown e))).
Proof.
  intros H Hp Hv. unfold auth, header_authorization, verify. rewrite H.
  cbn [truthy startsWith]. rewrite Hp, (prefix_nonempty _ Hp), Hv.
  cbn [negb bind try_catch thrown e_name is_string].
  destruct (jwt_name e =? "TokenExpiredError"); [reflexivity | ].
  destruct (jwt_name e =? "JsonWebTokenError"); reflexivity.
Qed.

Lemma new_APIError_status (rt : runtime) (message : string) (code : Z) :
  e_status (new_APIError rt message code) = Num code.
Proof. reflexivity. Qed.

Lemma fails_with_next (e : error) (code : Z) :
  fails_with (Next (Some e)) code <-> e_status e = Num code.
Proof.
  split.
  - intros [e' [[H | H] Hs]]; [ | discriminate]. congruence.
  - intros H. exists e. auto.
Qed.

Lemma not_fails_with_ok (code : Z) : ~ fails_with (Next None) code.
Proof. intros [e [[H | H] _]]; discriminate. Qed.

(** C1. [auth] fails with status 401 in exactly four cases: no
    [Authorization] header, a header that does not start with [Bearer ], a
    token the library rejects with a [JsonWebTokenError] (a signature that
    does not verify), and a token it rejects with a [TokenExpiredError] (an
    expiration instant that has passed). *)
Theorem auth_fails_401_iff (rt : runtime) (cfg : config) (now : Z)
  (req : request) :
  fails_with (snd (auth rt cfg now req)) 401
  <->
  (authorization req = None
   \/ (exists h, authorization req = Some h
                 /\ String.prefix "Bearer " h = false)
   \/ (exists h e, authorization req = Some h
                   /\ String.prefix "Bearer " h = true
                   /\ jwt_verify rt (extract_token (Str h)) (jwt_secret cfg) now
                      = Rejected e
                   /\ jwt_name e = "JsonWebTokenError")
   \/ (exists h e, authorization req = Some h
                   /\ String.prefix "Bearer " h = true
                   /\ jwt_verify rt (extract_token (Str h)) (jwt_secret cfg) now
                      = Rejected e
                   /\ jwt_name e = "TokenExpiredError")).
Proof.
  destruct (authorization req) as [h | ] eqn:Hh.
  2:{ rewrite (auth_no_header rt cfg now req (or_introl Hh)). cbn [snd].
      rewrite fails_with_next. split; auto. }
  destruct (String.prefix "Bearer " h) eqn:Hp.
  2:{ assert (Hf : fails_with (snd (auth rt cfg now req)) 401).
      { destruct (String.eqb_spec h EmptyString) as [-> | Hne].
        - rewrite (auth_no_header rt cfg now req (or_intror Hh)). cbn [snd].
          apply fails_with_next. reflexivity.
        - rewrite (auth_bad_scheme rt cfg now req h Hh Hne Hp). cbn [snd].
          apply fails_with_next. reflexivity. }
      split; [ | intros _; exact Hf].
      intros _. right. left. exists h. auto. }
  destruct (jwt_verify rt (extract_token (Str h)) (jwt_secret cfg) now)
    as [decoded | e] eqn:Hv.
  - rewrite (auth_verified rt cfg now req h decoded Hh Hp Hv). cbn [snd].
    split.
    + intros H. exfalso. exact (not_fails_with_ok _ H).
    + intros [H | [[h' [H1 H2]] | [[h' [e [H1 [H2 [H3 _]]]]]
                                  | [h' [e [H1 [H2 [H3 _]]]]]]]];
        try discriminate; congruence.
  - rewrite (auth_rejected rt cfg now req h e Hh Hp Hv). cbn [snd].
    rewrite fails_with_next.
    destruct (String.eqb_spec (jwt_name e) "TokenExpiredError") as [He | He].
    + split; [ | reflexivity].
      intros _. right. right. right. exists h, e. auto.
    + destruct (String.eqb_spec (jwt_name e) "JsonWebTokenError")
        as [Hj | Hj].
      * split; [ | reflexivity].
        intros _. right. right. left. exists h, e. auto.
      * split; [discriminate | ].
        intros [H | [[h' [H1 H2]] | [[h' [e' [H1 [H2 [H3 H4]]]]]
                                    | [h' [e' [H1 [H2 [H3 H4]]]]]]]];
          try discriminate; try congruence.
Qed.

(** An error passed on with status 401 is answered with HTTP status 401. *)
Lemma fails_with_401_response (cfg : config) (o : outcome) :
  fails_with o 401 ->
  exists e, (o = Next (Some e) \/ o = Thrown e)
            /\ status_code (respond cfg e) = Num 401.
Proof.
  intros [e [Ho Hs]]. exists e. split; [exact Ho | ].
  apply respond_status; [exact Hs | discriminate].
Qed.

(** C5. For a request whose header carries a token the library verifies,
    [auth] calls [next()] and leaves in [req.user] exactly the decoded
    claims, on the request the downstream handler receives. *)
Theorem auth_attaches_claims (rt : runtime) (cfg : config) (now : Z)
  (req : request) (h : string) (decoded : value) :
  authorization req = Some h ->
  String.prefix "Bearer " h = true ->
  jwt_verify rt (extract_token (Str h)) (jwt_secret cfg) now
  = Verified decoded ->
  succeeds (snd (auth rt cfg now req))
  /\ user (fst (auth rt cfg now req)) = decoded
  /\ authorization (fst (auth rt cfg now req)) = authorization req.
Proof.
  intros Hh Hp Hv. rewrite (auth_verified rt cfg now req h decoded Hh Hp Hv).
  repeat split.
Qed.

Lemma auth_attaches_claims_witness :
  succeeds (snd (auth demo_runtime production_cfg 2000 bearer_request))
  /\ user (fst (auth demo_runtime production_cfg 2000 bearer_request))
     = demo_claims
  /\ authorization (fst (auth demo_runtime production_cfg 2000 bearer_request))
     = authorization bearer_request.
Proof.
  apply (auth_attaches_claims demo_runtime production_cfg 2000 bearer_request
           ("Bearer " ++ demo_token) demo_claims); reflexivity.
Defined.

(** ** optionalAuth *)

(** [optionalAuth], by the header and the verdict of the library. *)
Lemma optionalAuth_cases (rt : runtime) (cfg : config) (now : Z)
  (req : request) :
  optionalAuth rt cfg now req =
  match authorization req with
  | None => (req, Next None)
  | Some h =>
      if String.prefix "Bearer " h then
        match jwt_verify rt (extract_token (Str h)) (jwt_secret cfg) now with
        | Verified decoded => (set_user req decoded, Next None)
        | Rejected _ => (req, Next None)
        end
      else (req, Next None)
  end.
Proof.
  unfold optionalAuth, header_authorization, verify.
  destruct (authorization req) as [h | ]; [ | reflexivity].
  cbn [truthy startsWith].
  destruct (String.prefix "Bearer " h) eqn:Hp.
  - rewrite (prefix_nonempty _ Hp). cbn [negb orb].
    destruct (jwt_verify rt (extract_token (Str h)) (jwt_secret cfg) now);
      reflexivity.
  - rewrite orb_true_r. reflexivity.
Qed.

(** C6. [optionalAuth] always calls [next()] without an error. With no
    header, with a header of another scheme, and with a token the library
    rejects, the request goes on as it came, so an identity that was absent
    stays absent; with a token the library verifies, [req.user] holds the
    decoded claims. *)
Theorem optionalAuth_never_fails (rt : runtime) (cfg : config) (now : Z)
  (req : request) :
  succeeds (snd (optionalAuth rt cfg now req))
  /\ (authorization req = None -> fst (optionalAuth rt cfg now req) = req)
  /\ (forall h, authorization req = Some h ->
        String.prefix "Bearer " h = false ->
        fst (optionalAuth rt cfg now req) = req)
  /\ (forall h e, authorization req = Some h ->
        String.prefix "Bearer " h = true ->
        jwt_verify rt (extract_token (Str h)) (jwt_secret cfg) now
        = Rejected e ->
        fst (optionalAuth rt cfg now req) = req)
  /\ (forall h decoded, authorization req = Some h ->
        String.prefix "Bearer " h = true ->
        jwt_verify rt (extract_token (Str h)) (jwt_secret cfg) now
        = Verified decoded ->
        fst (optionalAuth rt cfg now req) = set_user req decoded
        /\ user (fst (optionalAuth rt cfg now req)) = decoded).
Proof.
  rewrite optionalAuth_cases. unfold succeeds.
  refine (conj _ (conj _ (conj _ (conj _ _)))).
  - destruct (authorization req) as [h | ]; [ | reflexivity].
    destruct (String.prefix "Bearer " h); [ | reflexivity].
    destruct (jwt_verify rt _ _ _); reflexivity.
  - intros ->. reflexivity.
  - intros h -> ->. reflexivity.
  - intros h e -> -> ->. reflexivity.
  - intros h decoded -> -> ->. split; reflexivity.
Qed.

Example optionalAuth_forged :
  optionalAuth demo_runtime production_cfg 2000 forged_request
  = (forged_request, Next None).
Proof. reflexivity. Qed.

Example optionalAuth_bearer :
  optionalAuth demo_runtime production_cfg 2000 bearer_request
  = (set_user bearer_request demo_claims, Next None).
Proof. reflexivity. Qed.

(** ** auth, called twice *)

(** C9. For a request whose token the library verifies at two clock
    readings, with the claims [decoded] both times, [auth] succeeds both
    times and both times leaves exactly [decoded] in [req.user]: the two
    Identity Contexts have identical fields. The same holds when the second
    call is made on the request as the first call left it. *)
Theorem auth_twice_same_identity (rt : runtime) (cfg : config)
  (now1 now2 : Z) (req : request) (h : string) (decoded : value) :
  authorization req = Some h ->
  String.prefix "Bearer " h = true ->
  jwt_verify rt (extract_token (Str h)) (jwt_secret cfg) now1
  = Verified decoded ->
  jwt_verify rt (extract_token (Str h)) (jwt_secret cfg) now2
  = Verified decoded ->
  auth rt cfg now1 req = (set_user req decoded, Next None)
  /\ auth rt cfg now2 req = (set_user req decoded, Next None)
  /\ auth rt cfg now2 (fst (auth rt cfg now1 req))
     = (set_user req decoded, Next None)
  /\ user (fst (auth rt cfg now1 req)) = decoded
  /\ user (fst (auth rt cfg now2 req)) = decoded.
Proof.
  intros Hh Hp Hv1 Hv2.
  rewrite (auth_verified rt cfg now1 req h decoded Hh Hp Hv1).
  rewrite (auth_verified rt cfg now2 req h decoded Hh Hp Hv2).
  cbn [fst].
  rewrite (auth_verified rt cfg now2 (set_user req decoded) h decoded
             Hh Hp Hv2).
  repeat split.
Qed.

Lemma auth_twice_same_identity_witness :
  auth demo_runtime production_cfg 2000 bearer_request
  = (set_user bearer_request demo_claims, Next None)
  /\ auth demo_runtime production_cfg 3000 bearer_request
     = (set_user bearer_request demo_claims, Next None)
  /\ auth demo_runtime production_cfg 3000
          (fst (auth demo_runtime production_cfg 2000 bearer_request))
     = (set_user bearer_request demo_claims, Next None)
  /\ user (fst (auth demo_runtime production_cfg 2000 bearer_request))
     = demo_claims
  /\ user (fst (auth demo_runtime production_cfg 3000 bearer_request))
     = demo_claims.
Proof.
  apply (auth_twice_same_identity demo_runtime production_cfg 2000 3000
           bearer_request ("Bearer " ++ demo_token) demo_claims);
    reflexivity.
Defined.

(** ** authorize *)

Lemma includes_In (roles : list string) (v : value) :
  includes roles v = true <-> exists r, v = Str r /\ In r roles.
Proof.
  unfold includes. split.
  - destruct v; try discriminate. intros H.
    apply existsb_exists in H. destruct H as [r [Hin Heq]].
    apply String.eqb_eq in Heq. subst. eauto.
  - intros [r [-> Hin]]. apply existsb_exists.
    exists r. split; [exact Hin | apply String.eqb_refl].
Qed.

(** C4. [authorize(roles)] on a request: with no identity in [req.user] it
    fails with 401; with an identity it succeeds when the allowed roles are
    empty, it succeeds when the identity's role is one of them, and in every
    other case it fails with 403. *)
Theorem authorize_decides (rt : runtime) (roles : roles_arg) (req : request) :
  (truthy (user req) = false -> fails_with (authorize rt roles req) 401)
  /\ (truthy (user req) = true ->
      allowed_roles roles = [] -> succeeds (authorize rt roles req))
  /\ (truthy (user req) = true ->
      (exists r, get (user req) "role" = Str r /\ In r (allowed_roles roles)) ->
      succeeds (authorize rt roles req))
  /\ (truthy (user req) = true ->
      allowed_roles roles <> [] ->
      ~ (exists r, get (user req) "role" = Str r
                   /\ In r (allowed_roles roles)) ->
      fails_with (authorize rt roles req) 403).
Proof.
  unfold authorize, succeeds.
  refine (conj _ (conj _ (conj _ _))).
  - intros ->. cbn [negb]. eexists. split; [right; reflexivity | reflexivity].
  - intros -> ->. reflexivity.
  - intros -> Hin. apply includes_In in Hin. rewrite Hin.
    cbn [negb]. rewrite andb_false_r. reflexivity.
  - intros -> Hne Hnot. cbn [negb].
    destruct (includes (allowed_roles roles) (get (user req) "role")) eqn:Hi.
    + exfalso. apply Hnot. apply includes_In. exact Hi.
    + destruct (allowed_roles roles) as [ | r rs]; [contradiction | ].
      cbn. eexists. split; [right; reflexivity | reflexivity].
Qed.

Lemma authorize_absent_identity (rt : runtime) (roles : roles_arg)
  (req : request) :
  user req = Undefined ->
  authorize rt roles req = Thrown (new_APIError rt "User not authenticated" 401).
Proof. unfold authorize. intros ->. reflexivity. Qed.

Example authorize_admin_only_user :
  authorize demo_runtime (RoleList ["admin"])
            (mkRequest None user_identity)
  = Thrown (new_APIError demo_runtime
              "Unauthorized - Insufficient permissions" 403).
Proof. reflexivity. Qed.

Example authorize_admin_only_admin :
  authorize demo_runtime (RoleName "admin") (mkRequest None demo_claims)
  = Next None.
Proof. reflexivity. Qed.

Example authorize_any_role :
  authorize demo_runtime RolesOmitted (mkRequest None user_identity)
  = Next None.
Proof. reflexivity. Qed.

(** ** asyncHandler under the router *)

Lemma settle_awaits (n : nat) (b : handler_body) :
  settle (awaits n b) = settle b.
Proof. induction n as [ | n IH]; simpl; auto. Qed.


Lemma asyncHandler_rejected (b : handler_body) (e : error) :
  settle b = Throw e -> asyncHandler (AsyncFn b) = Forwarded e.
Proof. unfold asyncHandler, call. intros ->. reflexivity. Qed.



(** * Further properties of the middleware *)

(** [auth], by the header and the verdict of the library. *)
Lemma auth_cases (rt : runtime) (cfg : config) (now : Z) (req : request) :
  auth rt cfg now req =
  match authorization req with
  | None =>
      (req, Next (Some (new_APIError rt "No authentication token provided" 401)))
  | Some h =>
      if h =? EmptyString then
        (req,
         Next (Some (new_APIError rt "No authentication token provided" 401)))
      else if String.prefix "Bearer " h then
        match jwt_verify rt (extract_token (Str h)) (jwt_secret cfg) now with
        | Verified decoded => (set_user req decoded, Next None)
        | Rejected e =>
            (req,
             Next (Some
               (if jwt_name e =? "TokenExpiredError"
                then new_APIError rt "Token has expired" 401
                else if jwt_name e =? "JsonWebTokenError"
                     then new_APIError rt "Invalid token" 401
                     else thrown e)))
        end
      else (req, Next (Some (new_APIError rt "Invalid token format" 401)))
  end.
Proof.
  destruct (authorization req) as [h | ] eqn:Hh.
  2:{ apply auth_no_header. left. exact Hh. }
  destruct (String.eqb_spec h EmptyString) as [-> | Hne].
  { apply auth_no_header. right. exact Hh. }
  destruct (String.prefix "Bearer " h) eqn:Hp.
  - destruct (jwt_verify rt (extract_token (Str h)) (jwt_secret cfg) now)
      as [decoded | e] eqn:Hv.
    + exact (auth_verified rt cfg now req h decoded Hh Hp Hv).
    + exact (auth_rejected rt cfg now req h e Hh Hp Hv).
  - exact (auth_bad_scheme rt cfg now req h Hh Hne Hp).
Qed.

(** X1. [optionalAuth] and [auth] leave the same request behind: both set
    [req.user] in exactly the same cases and to the same claims, and both
    leave the request untouched otherwise. *)
Theorem optionalAuth_attaches_as_auth (rt : runtime) (cfg : config) (now : Z)
  (req : request) :
  fst (optionalAuth rt cfg now req) = fst (auth rt cfg now req).
Proof.
  rewrite optionalAuth_cases, auth_cases.
  destruct (authorization req) as [h | ]; [ | reflexivity].
  destruct (String.eqb_spec h EmptyString) as [-> | Hne]; [reflexivity | ].
  destruct (String.prefix "Bearer " h); [ | reflexivity].
  destruct (jwt_verify rt (extract_token (Str h)) (jwt_secret cfg) now);
    reflexivity.
Qed.

(** X2. [auth] touches the request only when it succeeds: whenever it passes
    an error on, the request, with whatever [req.user] it carried, is as it
    came, and the header is never changed. *)
Theorem auth_failure_keeps_request (rt : runtime) (cfg : config) (now : Z)
  (req : request) :
  (forall e, snd (auth rt cfg now req) = Next (Some e) ->
             fst (auth rt cfg now req) = req)
  /\ authorization (fst (auth rt cfg now req)) = authorization req
  /\ (forall e, snd (auth rt cfg now req) <> Thrown e).
Proof.
  rewrite auth_cases.
  destruct (authorization req) as [h | ] eqn:Hh;
    [ | repeat split; auto; discriminate].
  destruct (h =? EmptyString); [repeat split; auto; discriminate | ].
  destruct (String.prefix "Bearer " h);
    [ | repeat split; auto; discriminate].
  destruct (jwt_verify rt (extract_token (Str h)) (jwt_secret cfg) now);
    repeat split; auto; discriminate.
Qed.

Lemma split_on_head (sep : ascii) (t rest : string) :
  forallb (fun c => negb (Ascii.eqb c sep)) (list_ascii_of_string t) = true ->
  hd EmptyString (split_on sep (t ++ String sep rest)) = t.
Proof.
  induction t as [ | c t IH]; simpl; intros H.
  - rewrite Ascii.eqb_refl. reflexivity.
  - apply andb_prop in H. destruct H as [Hc Ht].
    apply negb_true_iff in Hc. rewrite Hc.
    specialize (IH Ht).
    destruct (split_on sep (t ++ String sep rest)) as [ | piece pieces].
    + simpl in IH. subst t. reflexivity.
    + simpl in IH. subst piece. reflexivity.
Qed.

(** X3. The token is the text between the scheme and the next space:
    whatever follows a second space in the header is ignored, and a header
    with two spaces after the scheme yields the empty token. *)
Theorem extract_token_ignores_tail (token rest : string) :
  spaceless token = true ->
  extract_token (Str ("Bearer " ++ token ++ " " ++ rest)) = Str token.
Proof.
  intros H. rewrite extract_token_bearer.
  change (token ++ " " ++ rest) with (token ++ String " " rest).
  rewrite (split_on_head " " token rest H). reflexivity.
Qed.

Lemma extract_token_ignores_tail_witness :
  extract_token (Str ("Bearer " ++ "abc.def.ghi" ++ " " ++ "and more"))
  = Str "abc.def.ghi".
Proof.
  apply (extract_token_ignores_tail "abc.def.ghi" "and more"). reflexivity.
Defined.

(** X4. On a route mounted as [auth] in front of a wrapped handler, under
    the error-handling middleware of [server.js]: a request whose header
    holds no bearer token the library verifies never reaches the handler.
    [auth] passes an error to [next], the answer is that middleware's
    response to it, the same whatever the handler is, its HTTP status is 401
    or, for a failure of the library that is neither an expired nor an
    invalid token, 500, and it carries the message of the error and no
    stack. *)
Theorem route_auth_rejects_before_handler (rt : runtime) (cfg : config)
  (now : Z) (req : request) :
  (forall h decoded,
     authorization req = Some h ->
     String.prefix "Bearer " h = true ->
     jwt_verify rt (extract_token (Str h)) (jwt_secret cfg) now
     <> Verified decoded) ->
  exists e,
    snd (auth rt cfg now req) = Next (Some e)
    /\ (forall h : request -> handler,
          route serverErrorHandler [auth rt cfg now] h req
          = Answered (serverErrorHandler e))
    /\ (status_code (serverErrorHandler e) = Num 401
        \/ (e_api e = false
            /\ status_code (serverErrorHandler e) = Num 500))
    /\ has_key "stack" (payload (serverErrorHandler e)) = false
    /\ (truthy (e_message e) = true ->
        lookup "message" (payload (serverErrorHandler e)) = e_message e).
Proof.
  intros Hrej. unfold route. cbn [pipeline]. rewrite auth_cases.
  assert (Hapi : forall m,
            exists e,
              Next (Some (new_APIError rt m 401)) = Next (Some e)
              /\ (forall h : request -> handler,
                    Answered (serverErrorHandler (new_APIError rt m 401))
                    = Answered (serverErrorHandler e))
              /\ (status_code (serverErrorHandler e) = Num 401
                  \/ (e_api e = false
                      /\ status_code (serverErrorHandler e) = Num 500))
              /\ has_key "stack" (payload (serverErrorHandler e)) = false
              /\ (truthy (e_message e) = true ->
                  lookup "message" (payload (serverErrorHandler e))
                  = e_message e)).
  { intros m. exists (new_APIError rt m 401).
    refine (conj eq_refl (conj (fun _ => eq_refl) (conj _ (conj _ _)))).
    - left. reflexivity.
    - reflexivity.
    - intros Hm. unfold serverErrorHandler, orelse, payload. cbn.
      cbn in Hm. rewrite Hm. reflexivity. }
  destruct (authorization req) as [h | ] eqn:Hh; [ | apply Hapi].
  destruct (h =? EmptyString); [apply Hapi | ].
  destruct (String.prefix "Bearer " h) eqn:Hp; [ | apply Hapi].
  destruct (jwt_verify rt (extract_token (Str h)) (jwt_secret cfg) now)
    as [decoded | je] eqn:Hv.
  { exfalso. exact (Hrej h decoded eq_refl Hp Hv). }
  destruct (jwt_name je =? "TokenExpiredError"); [apply Hapi | ].
  destruct (jwt_name je =? "JsonWebTokenError"); [apply Hapi | ].
  exists (thrown je).
  refine (conj eq_refl (conj (fun _ => eq_refl) (conj _ (conj _ _)))).
  - right. split; reflexivity.
  - reflexivity.
  - intros Hm. unfold serverErrorHandler, orelse, payload. cbn.
    cbn in Hm. rewrite Hm. reflexivity.
Qed.

Lemma route_auth_rejects_before_handler_witness :
  exists e,
    snd (auth demo_runtime production_cfg 2000 basic_request)
    = Next (Some e)
    /\ (forall h : request -> handler,
          route serverErrorHandler [auth demo_runtime production_cfg 2000] h
                basic_request
          = Answered (serverErrorHandler e))
    /\ (status_code (serverErrorHandler e) = Num 401
        \/ (e_api e = false
            /\ status_code (serverErrorHandler e) = Num 500))
    /\ has_key "stack" (payload (serverErrorHandler e)) = false
    /\ (truthy (e_message e) = true ->
        lookup "message" (payload (serverErrorHandler e)) = e_message e).
Proof.
  apply (route_auth_rejects_before_handler demo_runtime production_cfg 2000
           basic_request).
  intros h decoded Hh Hp. injection Hh as Hh. subst h. discriminate Hp.
Defined.

(** X5. A request passes [auth] followed by [authorize(roles)] exactly when
    its header carries the [Bearer ] scheme, the library verifies the token
    to truthy claims, and either no role is required or the role in the
    claims is one of the required ones; the handler then receives the request
    with those claims in [req.user]. *)
Theorem pipeline_auth_authorize (rt : runtime) (cfg : config) (now : Z)
  (roles : roles_arg) (req req' : request) :
  pipeline [auth rt cfg now; authorize_mw rt roles] req = inl req'
  <->
  exists h decoded,
    authorization req = Some h
    /\ String.prefix "Bearer " h = true
    /\ jwt_verify rt (extract_token (Str h)) (jwt_secret cfg) now
       = Verified decoded
    /\ truthy decoded = true
    /\ (allowed_roles roles = []
        \/ exists r, get decoded "role" = Str r /\ In r (allowed_roles roles))
    /\ req' = set_user req decoded.
Proof.
  cbn [pipeline]. rewrite auth_cases. unfold authorize_mw, authorize.
  split.
  - destruct (authorization req) as [h | ] eqn:Hh; [ | discriminate].
    destruct (h =? EmptyString); [discriminate | ].
    destruct (String.prefix "Bearer " h) eqn:Hp; [ | discriminate].
    destruct (jwt_verify rt (extract_token (Str h)) (jwt_secret cfg) now)
      as [decoded | e] eqn:Hv; [ | discriminate].
    cbn [user set_user].
    destruct (truthy decoded) eqn:Ht; [ | discriminate]. cbn [negb].
    destruct (allowed_roles roles) as [ | r rs] eqn:Hr.
    + cbn. intros H. injection H as <-.
      exists h, decoded. repeat split; auto.
    + destruct (includes (r :: rs) (get decoded "role")) eqn:Hi;
        [ | cbn; discriminate].
      cbn. intros H. injection H as <-.
      exists h, decoded. repeat split; auto.
      right. exact (proj1 (includes_In (r :: rs) (get decoded "role")) Hi).
  - intros [h [decoded [Hh [Hp [Hv [Ht [Hr ->]]]]]]].
    rewrite Hh, Hp, (prefix_nonempty _ Hp), Hv. cbn [user set_user].
    rewrite Ht. cbn [negb].
    destruct Hr as [-> | Hin]; [reflexivity | ].
    apply includes_In in Hin. rewrite Hin. cbn [negb].
    rewrite andb_false_r. reflexivity.
Qed.

(** X6. Requiring roles is monotone once some role is required: a request
    that passes [authorize] for a non-empty list of roles passes it for every
    longer list. (From the empty list, which admits every identity, adding a
    role can only narrow.) *)
Theorem authorize_more_roles (rt : runtime) (rs extra : list string)
  (req : request) :
  rs <> [] ->
  succeeds (authorize rt (RoleList rs) req) ->
  succeeds (authorize rt (RoleList (rs ++ extra)) req)
  /\ succeeds (authorize rt (RoleList (extra ++ rs)) req).
Proof.
  unfold succeeds, authorize. cbn [allowed_roles]. intros Hne.
  destruct (truthy (user req)); cbn [negb]; [ | discriminate].
  destruct rs as [ | r rs]; [contradiction | ].
  destruct (includes (r :: rs) (get (user req) "role")) eqn:Hi;
    [ | cbn; discriminate].
  intros _. apply includes_In in Hi. destruct Hi as [x [Hx Hin]].
  assert (H1 : includes ((r :: rs) ++ extra) (get (user req) "role") = true).
  { apply includes_In. exists x. split; [exact Hx | ].
    apply in_or_app. left. exact Hin. }
  assert (H2 : includes (extra ++ r :: rs) (get (user req) "role") = true).
  { apply includes_In. exists x. split; [exact Hx | ].
    apply in_or_app. right. exact Hin. }
  rewrite H1, H2. cbn [negb]. rewrite !andb_false_r. split; reflexivity.
Qed.

Lemma authorize_more_roles_witness :
  succeeds (authorize demo_runtime (RoleList (["admin"] ++ ["editor"]))
              (mkRequest None demo_claims))
  /\ succeeds (authorize demo_runtime (RoleList (["editor"] ++ ["admin"]))
                 (mkRequest None demo_claims)).
Proof.
  apply (authorize_more_roles demo_runtime ["admin"] ["editor"]
           (mkRequest None demo_claims)).
  - discriminate.
  - reflexivity.
Defined.

(** ** The two error-handling middlewares *)

Lemma serverErrorHandler_eq (err : error) :
  serverErrorHandler err =
  mkResponse (shown_status err)
    (Obj [("error",
           Obj [ ("message",
                  if truthy (e_message err) then e_message err
                  else Str "Internal Server Error");
                 ("status", shown_status err) ])]).
Proof. reflexivity. Qed.

(** X7. The middleware mounted in [server.js] and [errorHandler] always
    answer with the same HTTP status; for an [APIError] with a non-empty
    message and no details they send the same response outside development
    mode. *)
Theorem server_handler_agrees (cfg : config) (err : error) :
  status_code (serverErrorHandler err) = status_code (respond cfg err)
  /\ (e_api err = true ->
      truthy (e_message err) = true ->
      truthy (e_details err) = false ->
      development cfg = false ->
      serverErrorHandler err = respond cfg err).
Proof.
  rewrite serverErrorHandler_eq, respond_eq. split; [reflexivity | ].
  intros Ha Hm Hd Hdev.
  unfold shown_message, shown_details, shown_stack.
  rewrite Ha, Hm, Hd, Hdev. reflexivity.
Qed.

(** X8. The middleware mounted in [server.js] never sends [details] or
    [stack], in any mode, and it sends the original message of every error
    that has one: for an error that is no [APIError], where [errorHandler]
    sends the fixed string, it sends [err.message]. *)
Theorem server_handler_exposes_message (cfg : config) (err : error) :
  truthy (e_message err) = true ->
  payload (serverErrorHandler err)
  = [("message", e_message err); ("status", status_code (respond cfg err))]
  /\ (e_api err = false ->
      lookup "message" (payload (respond cfg err))
      = Str "Internal Server Error").
Proof.
  intros Hm. split.
  - rewrite serverErrorHandler_eq, respond_eq.
    unfold payload. cbn. rewrite Hm. reflexivity.
  - intros Ha. rewrite payload_eq. unfold shown_message. rewrite Ha.
    reflexivity.
Qed.

Lemma server_handler_exposes_message_witness :
  payload (serverErrorHandler null_dereference)
  = [("message", e_message null_dereference);
     ("status", status_code (respond production_cfg null_dereference))]
  /\ (e_api null_dereference = false ->
      lookup "message" (payload (respond production_cfg null_dereference))
      = Str "Internal Server Error").
Proof.
  apply (server_handler_exposes_message production_cfg null_dereference).
  reflexivity.
Defined.

(** X9. Development mode adds the [stack] key and nothing else: for every
    error, the HTTP status is the same in both modes, and the object sent in
    development mode is the one sent otherwise followed by [stack]. *)
Theorem development_adds_only_stack (dev other : config) (err : error) :
  development dev = true ->
  development other = false ->
  status_code (respond dev err) = status_code (respond other err)
  /\ payload (respond dev err)
     = (payload (respond other err) ++ [("stack", e_stack err)])%list.
Proof.
  intros Hd Ho. split.
  - rewrite !respond_eq. reflexivity.
  - rewrite !payload_eq. unfold shown_stack. rewrite Hd, Ho.
    rewrite app_nil_r, <- !app_assoc. reflexivity.
Qed.

Lemma development_adds_only_stack_witness :
  status_code (respond development_cfg parse_failure)
  = status_code (respond production_cfg parse_failure)
  /\ payload (respond development_cfg parse_failure)
     = (payload (respond production_cfg parse_failure)
        ++ [("stack", e_stack parse_failure)])%list.
Proof.
  apply (development_adds_only_stack development_cfg production_cfg
           parse_failure); reflexivity.
Defined.

(** * Regular expressions *)

Lemma append_empty_r (s : string) : s ++ EmptyString = s.
Proof. induction s as [ | c s IH]; simpl; [ | rewrite IH]; reflexivity. Qed.

Lemma append_assoc (a b c : string) : (a ++ b) ++ c = a ++ b ++ c.
Proof. induction a as [ | x a IH]; simpl; [ | rewrite IH]; reflexivity. Qed.

Lemma append_eq_empty (a b : string) :
  a ++ b = EmptyString -> a = EmptyString /\ b = EmptyString.
Proof. destruct a; simpl; intros H; [auto | discriminate]. Qed.

Lemma lang_seq_inv (r s : Regex.re) (w : string) :
  Regex.lang (Regex.Seq r s) w ->
  exists u v, w = u ++ v /\ Regex.lang r u /\ Regex.lang s v.
Proof. intros H. inversion H; subst. eauto. Qed.

Lemma lang_alt_inv (r s : Regex.re) (w : string) :
  Regex.lang (Regex.Alt r s) w -> Regex.lang r w \/ Regex.lang s w.
Proof. intros H. inversion H; subst; auto. Qed.

Lemma lang_class_inv (p : ascii -> bool) (w : string) :
  Regex.lang (Regex.Class p) w ->
  exists c, w = String c EmptyString /\ p c = true.
Proof. intros H. inversion H; subst. eauto. Qed.

Lemma lang_empty_inv (w : string) :
  Regex.lang Regex.Empty w -> w = EmptyString.
Proof. intros H. inversion H. reflexivity. Qed.

Lemma lang_never_inv (w : string) : ~ Regex.lang Regex.Never w.
Proof. intros H. inversion H. Qed.

Lemma nullable_lang (r : Regex.re) :
  Regex.nullable r = true <-> Regex.lang r EmptyString.
Proof.
  induction r as [ | | p | r IHr s IHs | r IHr s IHs | r IH]; simpl.
  - split; [discriminate | intros H; inversion H].
  - split; [intros _; constructor | reflexivity].
  - split; [discriminate | intros H; inversion H].
  - rewrite andb_true_iff, IHr, IHs. split.
    + intros [Hr Hs]. exact (Regex.lang_seq r s _ _ Hr Hs).
    + intros H. destruct (lang_seq_inv _ _ _ H) as [u [v [Heq [Hu Hv]]]].
      symmetry in Heq. destruct (append_eq_empty _ _ Heq) as [-> ->]. auto.
  - rewrite orb_true_iff, IHr, IHs. split.
    + intros [H | H]; [apply Regex.lang_alt_l | apply Regex.lang_alt_r]; auto.
    + apply lang_alt_inv.
  - split; [intros _; constructor | reflexivity].
Qed.

Lemma lang_star_unfold (r : Regex.re) (c : ascii) (s : string) :
  Regex.lang (Regex.Star r) (String c s) ->
  exists u v, s = u ++ v /\ Regex.lang r (String c u)
              /\ Regex.lang (Regex.Star r) v.
Proof.
  intros H. remember (Regex.Star r) as r' eqn:Hr.
  remember (String c s) as w eqn:Hw.
  induction H as [ | | | | | | r0 u v Hu _ Hv IHv]; try discriminate.
  injection Hr as ->.
  destruct u as [ | c' u]; simpl in Hw.
  - exact (IHv eq_refl Hw).
  - injection Hw as Hc Hs. subst c' s. exists u, v. auto.
Qed.

Lemma deriv_lang (r : Regex.re) (c : ascii) (s : string) :
  Regex.lang (Regex.deriv c r) s <-> Regex.lang r (String c s).
Proof.
  revert s.
  induction r as [ | | p | r IHr t IHt | r IHr t IHt | r IH]; intros s; simpl.
  - split; intros H; inversion H.
  - split; intros H; inversion H.
  - destruct (p c) eqn:Hp; split; intros H.
    + apply lang_empty_inv in H. subst. constructor. exact Hp.
    + apply lang_class_inv in H. destruct H as [c' [Heq _]].
      injection Heq as _ ->. constructor.
    + inversion H.
    + apply lang_class_inv in H. destruct H as [c' [Heq Hc]].
      injection Heq as <- _. congruence.
  - assert (Hcons : forall u v, Regex.lang (Regex.deriv c r) u ->
                                Regex.lang t v ->
                                Regex.lang (Regex.Seq r t) (String c (u ++ v))).
    { intros u v Hu Hv. apply IHr in Hu.
      exact (Regex.lang_seq r t (String c u) v Hu Hv). }
    assert (Hinv : Regex.lang (Regex.Seq r t) (String c s) ->
                   (exists u v, s = u ++ v /\ Regex.lang (Regex.deriv c r) u
                                /\ Regex.lang t v)
                   \/ (Regex.lang r EmptyString
                       /\ Regex.lang (Regex.deriv c t) s)).
    { intros H. destruct (lang_seq_inv _ _ _ H) as [u [v [Heq [Hu Hv]]]].
      destruct u as [ | c' u]; simpl in Heq.
      - subst v. right. split; [exact Hu | apply IHt; exact Hv].
      - injection Heq as Hc Hs. subst c' s. left. exists u, v.
        split; [reflexivity | ]. split; [apply IHr; exact Hu | exact Hv]. }
    destruct (Regex.nullable r) eqn:Hn.
    + split.
      * intros H. destruct (lang_alt_inv _ _ _ H) as [Hl | Hr].
        -- destruct (lang_seq_inv _ _ _ Hl) as [u [v [-> [Hu Hv]]]].
           apply Hcons; assumption.
        -- apply IHt in Hr. apply nullable_lang in Hn.
           exact (Regex.lang_seq r t EmptyString _ Hn Hr).
      * intros H. destruct (Hinv H) as [[u [v [-> [Hu Hv]]]] | [_ Ht]].
        -- apply Regex.lang_alt_l. constructor; assumption.
        -- apply Regex.lang_alt_r. exact Ht.
    + split.
      * intros H. destruct (lang_seq_inv _ _ _ H) as [u [v [-> [Hu Hv]]]].
        apply Hcons; assumption.
      * intros H. destruct (Hinv H) as [[u [v [-> [Hu Hv]]]] | [He _]].
        -- constructor; assumption.
        -- apply nullable_lang in He. congruence.
  - split; intros H.
    + destruct (lang_alt_inv _ _ _ H) as [Hl | Hr].
      * apply Regex.lang_alt_l. apply IHr. assumption.
      * apply Regex.lang_alt_r. apply IHt. assumption.
    + destruct (lang_alt_inv _ _ _ H) as [Hl | Hr].
      * apply Regex.lang_alt_l. apply IHr. assumption.
      * apply Regex.lang_alt_r. apply IHt. assumption.
  - split; intros H.
    + destruct (lang_seq_inv _ _ _ H) as [u [v [-> [Hu Hv]]]].
      apply IH in Hu.
      exact (Regex.lang_star_cons r (String c u) v Hu Hv).
    + destruct (lang_star_unfold r c s H) as [u [v [-> [Hu Hv]]]].
      constructor; [apply IH; exact Hu | exact Hv].
Qed.

(** The matcher decides membership. *)
Lemma matches_lang (r : Regex.re) (s : string) :
  Regex.matches r s = true <-> Regex.lang r s.
Proof.
  revert r. induction s as [ | c s IH]; intros r; simpl.
  - apply nullable_lang.
  - rewrite IH. apply deriv_lang.
Qed.

Lemma lang_star_class (p : ascii -> bool) (s : string) :
  Regex.lang (Regex.Star (Regex.Class p)) s <-> every p s = true.
Proof.
  split.
  - induction s as [ | c s IH]; intros H; [reflexivity | ].
    destruct (lang_star_unfold _ _ _ H) as [u [v [-> [Hu Hv]]]].
    apply lang_class_inv in Hu. destruct Hu as [c' [Heq Hp]].
    injection Heq as Hc Hu. subst c' u. simpl.
    rewrite Hp. apply IH. exact Hv.
  - induction s as [ | c s IH]; simpl; intros H; [constructor | ].
    apply andb_prop in H. destruct H as [Hc Hs].
    exact (Regex.lang_star_cons _ (String c EmptyString) s
             (Regex.lang_class p c Hc) (IH Hs)).
Qed.

Lemma lang_plus_class (p : ascii -> bool) (s : string) :
  Regex.lang (Regex.Plus (Regex.Class p)) s
  <-> s <> EmptyString /\ every p s = true.
Proof.
  unfold Regex.Plus. split.
  - intros H. destruct (lang_seq_inv _ _ _ H) as [u [v [-> [Hu Hv]]]].
    apply lang_class_inv in Hu. destruct Hu as [c [-> Hc]].
    apply lang_star_class in Hv. simpl. rewrite Hc, Hv.
    split; [discriminate | reflexivity].
  - intros [Hne He]. destruct s as [ | c s]; [contradiction | ].
    simpl in He. apply andb_prop in He. destruct He as [Hc Hs].
    exact (Regex.lang_seq _ _ (String c EmptyString) s
             (Regex.lang_class p c Hc) (proj2 (lang_star_class p s) Hs)).
Qed.

Lemma lang_char (p : ascii -> bool) (x : ascii) (s : string) :
  (forall c, p c = true <-> c = x) ->
  Regex.lang (Regex.Class p) s <-> s = String x EmptyString.
Proof.
  intros Hp. split.
  - intros H. apply lang_class_inv in H. destruct H as [c [-> Hc]].
    apply Hp in Hc. subst. reflexivity.
  - intros ->. constructor. apply Hp. reflexivity.
Qed.

Lemma is_at_spec (c : ascii) : is_at c = true <-> c = "@"%char.
Proof. unfold is_at. apply Ascii.eqb_eq. Qed.

Lemma is_dot_spec (c : ascii) : is_dot c = true <-> c = "."%char.
Proof. unfold is_dot. apply Ascii.eqb_eq. Qed.

(** The strings of [emailRegex]. *)
Lemma emailRegex_lang (email : string) :
  Regex.lang emailRegex email
  <->
  exists local domain rest,
    email = local ++ "@" ++ domain ++ "." ++ rest
    /\ email_part local /\ email_part domain /\ email_part rest.
Proof.
  unfold emailRegex, email_part. split.
  - intros H.
    destruct (lang_seq_inv _ _ _ H) as [a [w1 [-> [Ha H1]]]].
    destruct (lang_seq_inv _ _ _ H1) as [x [w2 [-> [Hx H2]]]].
    destruct (lang_seq_inv _ _ _ H2) as [b [w3 [-> [Hb H3]]]].
    destruct (lang_seq_inv _ _ _ H3) as [y [c [-> [Hy Hc]]]].
    apply (lang_char _ _ _ is_at_spec) in Hx.
    apply (lang_char _ _ _ is_dot_spec) in Hy. subst x y.
    apply lang_plus_class in Ha, Hb, Hc.
    exists a, b, c. auto.
  - intros [a [b [c [-> [Ha [Hb Hc]]]]]].
    apply lang_plus_class in Ha, Hb, Hc.
    apply Regex.lang_seq; [exact Ha | ].
    apply (Regex.lang_seq _ _ "@"); [apply Regex.lang_class; reflexivity | ].
    apply Regex.lang_seq; [exact Hb | ].
    apply (Regex.lang_seq _ _ "."); [apply Regex.lang_class; reflexivity | ].
    exact Hc.
Qed.

(** X10. [isValidEmail] accepts exactly the strings of the form
    [local@domain.rest] in which [local], [domain] and [rest] are non-empty
    and hold neither white space nor [@] (a dot is allowed in each of
    them). *)
Theorem isValidEmail_iff (email : string) :
  isValidEmail email = true
  <->
  exists local domain rest,
    email = local ++ "@" ++ domain ++ "." ++ rest
    /\ (local <> EmptyString /\ every email_char local = true)
    /\ (domain <> EmptyString /\ every email_char domain = true)
    /\ (rest <> EmptyString /\ every email_char rest = true).
Proof.
  unfold isValidEmail, Regex.test_whole. rewrite matches_lang.
  apply emailRegex_lang.
Qed.

Lemma count_append (p : ascii -> bool) (a b : string) :
  count p (a ++ b) = count p a + count p b.
Proof.
  induction a as [ | c a IH]; simpl; [reflexivity | ].
  rewrite IH. apply Nat.add_assoc.
Qed.

Lemma every_append (p : ascii -> bool) (a b : string) :
  every p (a ++ b) = every p a && every p b.
Proof.
  induction a as [ | c a IH]; simpl; [reflexivity | ].
  rewrite IH. apply andb_assoc.
Qed.

Lemma length_append (a b : string) :
  String.length (a ++ b) = String.length a + String.length b.
Proof. induction a as [ | c a IH]; simpl; [ | rewrite IH]; reflexivity. Qed.

Lemma email_part_facts (s : string) :
  email_part s ->
  count is_at s = 0 /\ every (fun c => negb (is_space c)) s = true
  /\ 1 <= String.length s.
Proof.
  intros [Hne He]. split; [ | split].
  - clear Hne. induction s as [ | c s IH]; [reflexivity | ].
    simpl in *. apply andb_prop in He. destruct He as [Hc Hs].
    unfold email_char in Hc. apply negb_true_iff, orb_false_elim in Hc.
    destruct Hc as [_ ->]. exact (IH Hs).
  - clear Hne. induction s as [ | c s IH]; [reflexivity | ].
    simpl in *. apply andb_prop in He. destruct He as [Hc Hs].
    unfold email_char in Hc. apply negb_true_iff, orb_false_elim in Hc.
    destruct Hc as [-> _]. exact (IH Hs).
  - destruct s; [contradiction | simpl; apply le_n_S, Nat.le_0_l].
Qed.

(** X11. An address [isValidEmail] accepts holds exactly one [@], no white
    space, and at least five characters. *)
Theorem isValidEmail_shape (email : string) :
  isValidEmail email = true ->
  count is_at email = 1
  /\ every (fun c => negb (is_space c)) email = true
  /\ 5 <= String.length email.
Proof.
  intros H. unfold isValidEmail, Regex.test_whole in H.
  apply matches_lang, emailRegex_lang in H.
  destruct H as [a [b [c [-> [Ha [Hb Hc]]]]]].
  destruct (email_part_facts a Ha) as [Ca [Ea La]].
  destruct (email_part_facts b Hb) as [Cb [Eb Lb]].
  destruct (email_part_facts c Hc) as [Cc [Ec Lc]].
  rewrite !count_append, !every_append, !length_append.
  rewrite Ca, Cb, Cc, Ea, Eb, Ec. cbn.
  split; [reflexivity | ]. split; [reflexivity | ]. lia.
Qed.

Lemma isValidEmail_shape_witness :
  count is_at "ada@example.com" = 1
  /\ every (fun c => negb (is_space c)) "ada@example.com" = true
  /\ 5 <= String.length "ada@example.com".
Proof. apply (isValidEmail_shape "ada@example.com"). reflexivity. Defined.

Lemma lang_star_any (s : string) :
  Regex.lang (Regex.Star (Regex.Class Regex.any)) s.
Proof.
  apply lang_star_class. induction s as [ | c s IH]; simpl; auto.
Qed.

Lemma some_split (p : ascii -> bool) (s : string) :
  some p s = true
  <-> exists pre c post, s = pre ++ String c post /\ p c = true.
Proof.
  split.
  - induction s as [ | c s IH]; simpl; intros H; [discriminate | ].
    destruct (p c) eqn:Hc.
    + exists EmptyString, c, s. auto.
    + destruct (IH H) as [pre [c' [post [-> Hc']]]].
      exists (String c pre), c', post. auto.
  - intros [pre [c [post [-> Hc]]]].
    induction pre as [ | x pre IH]; simpl.
    + rewrite Hc. reflexivity.
    + rewrite IH. apply orb_true_r.
Qed.

(** An unanchored class test looks for one character of the class. *)
Lemma test_any_class (p : ascii -> bool) (s : string) :
  Regex.test_any (Regex.Class p) s = some p s.
Proof.
  apply eq_true_iff_eq. unfold Regex.test_any.
  rewrite matches_lang, some_split. split.
  - intros H.
    destruct (lang_seq_inv _ _ _ H) as [pre [w [-> [_ H1]]]].
    destruct (lang_seq_inv _ _ _ H1) as [x [post [-> [Hx _]]]].
    apply lang_class_inv in Hx. destruct Hx as [c [-> Hc]].
    exists pre, c, post. auto.
  - intros [pre [c [post [-> Hc]]]].
    apply Regex.lang_seq; [apply lang_star_any | ].
    apply (Regex.lang_seq _ _ (String c EmptyString) post);
      [constructor; exact Hc | apply lang_star_any].
Qed.

Lemma isValidPassword_eq (password : string) :
  isValidPassword password
  = (8 <=? String.length password)%nat
    && some is_upper password && some is_lower password
    && some is_digit password && some is_special password.
Proof. unfold isValidPassword. rewrite !test_any_class. reflexivity. Qed.

(** X12. [isValidPassword] accepts exactly the strings of at least eight
    characters that hold an upper-case letter, a lower-case letter, a digit
    and a character that is none of these. *)
Theorem isValidPassword_iff (password : string) :
  isValidPassword password = true
  <->
  8 <= String.length password
  /\ some is_upper password = true
  /\ some is_lower password = true
  /\ some is_digit password = true
  /\ some (fun c => negb (is_upper c || is_lower c || is_digit c)) password
     = true.
Proof.
  rewrite isValidPassword_eq, !andb_true_iff, Nat.leb_le.
  fold is_special. tauto.
Qed.

Lemma some_append (p : ascii -> bool) (a b : string) :
  some p (a ++ b) = some p a || some p b.
Proof.
  induction a as [ | c a IH]; simpl; [reflexivity | ].
  rewrite IH. apply orb_assoc.
Qed.

(** X13. Text added before or after a password [isValidPassword] accepts
    never makes it unacceptable. *)
Theorem isValidPassword_extend (password more : string) :
  isValidPassword password = true ->
  isValidPassword (password ++ more) = true
  /\ isValidPassword (more ++ password) = true.
Proof.
  rewrite !isValidPassword_eq, !andb_true_iff, !Nat.leb_le.
  intros [[[[Hl Hu] Hw] Hd] Hs].
  rewrite !some_append, !length_append, Hu, Hw, Hd, Hs.
  rewrite !orb_true_r. cbn [orb]. repeat split; lia.
Qed.

Lemma isValidPassword_extend_witness :
  isValidPassword ("Passw0rd!" ++ " and a phrase") = true
  /\ isValidPassword (" and a phrase" ++ "Passw0rd!") = true.
Proof.
  apply (isValidPassword_extend "Passw0rd!" " and a phrase"). reflexivity.
Defined.

(** A password of letters and digits only is never accepted, however long
    it is. *)
Theorem isValidPassword_needs_special (password : string) :
  every (fun c => is_upper c || is_lower c || is_digit c) password = true ->
  isValidPassword password = false.
Proof.
  intros H. rewrite isValidPassword_eq.
  assert (Hs : some is_special password = false).
  { induction password as [ | c s IH]; [reflexivity | ].
    simpl in *. apply andb_prop in H. destruct H as [Hc Hs].
    unfold is_special at 1. rewrite Hc. exact (IH Hs). }
  rewrite Hs. apply andb_false_r.
Qed.

Lemma isValidPassword_needs_special_witness :
  isValidPassword "CorrectHorseBatteryStaple42" = false.
Proof.
  apply (isValidPassword_needs_special "CorrectHorseBatteryStaple42").
  reflexivity.
Defined.

(** * The authentication routes *)

Section MapFacts.

Context {V : Type}.

Lemma get_set_same (k : string) (v : V) (m : list (string * V)) :
  JsMap.get k (JsMap.set k v m) = Some v.
Proof.
  induction m as [ | [k' v'] m IH]; simpl.
  - rewrite String.eqb_refl. reflexivity.
  - destruct (k =? k') eqn:E; simpl; rewrite E; [reflexivity | exact IH].
Qed.

Lemma get_set_other (k k' : string) (v : V) (m : list (string * V)) :
  k' <> k -> JsMap.get k' (JsMap.set k v m) = JsMap.get k' m.
Proof.
  intros Hne. induction m as [ | [k0 v0] m IH]; simpl.
  - destruct (String.eqb_spec k' k); [contradiction | reflexivity].
  - destruct (String.eqb_spec k k0) as [-> | Hk]; simpl.
    + destruct (String.eqb_spec k' k0); [contradiction | reflexivity].
    + destruct (k' =? k0); [reflexivity | exact IH].
Qed.

Lemma get_In (k : string) (v : V) (m : list (string * V)) :
  JsMap.get k m = Some v -> In (k, v) m.
Proof.
  induction m as [ | [k' v'] m IH]; simpl; [discriminate | ].
  destruct (String.eqb_spec k k') as [-> | Hk].
  - intros H. injection H as ->. left. reflexivity.
  - intros H. right. exact (IH H).
Qed.

Lemma get_None_keys (k : string) (m : list (string * V)) :
  JsMap.get k m = None -> ~ In k (JsMap.keys m).
Proof.
  induction m as [ | [k' v'] m IH]; simpl; [tauto | ].
  destruct (String.eqb_spec k k') as [-> | Hk]; [discriminate | ].
  intros H [Heq | Hin]; [congruence | exact (IH H Hin)].
Qed.

Lemma In_set (k k' : string) (v v' : V) (m : list (string * V)) :
  In (k', v') (JsMap.set k v m) -> (k' = k /\ v' = v) \/ In (k', v') m.
Proof.
  induction m as [ | [k0 v0] m IH]; simpl.
  - intros [H | []]. injection H as <- <-. auto.
  - destruct (String.eqb_spec k k0) as [-> | Hk]; simpl.
    + intros [H | H]; [injection H as <- <-; auto | auto].
    + intros [H | H]; [auto | ].
      destruct (IH H) as [? | ?]; auto.
Qed.

Lemma keys_set (k : string) (v : V) (m : list (string * V)) :
  JsMap.keys (JsMap.set k v m)
  = if JsMap.has k m then JsMap.keys m else (JsMap.keys m ++ [k])%list.
Proof.
  unfold JsMap.has. induction m as [ | [k' v'] m IH]; simpl; [reflexivity | ].
  destruct (k =? k') eqn:E; simpl; [reflexivity | ].
  rewrite IH. destruct (JsMap.get k m); reflexivity.
Qed.

Lemma NoDup_keys_set (k : string) (v : V) (m : list (string * V)) :
  NoDup (JsMap.keys m) -> NoDup (JsMap.keys (JsMap.set k v m)).
Proof.
  intros H. rewrite keys_set. unfold JsMap.has.
  destruct (JsMap.get k m) eqn:E; [exact H | ].
  apply NoDup_rev in H. rewrite <- (rev_involutive (_ ++ _)%list).
  apply NoDup_rev. rewrite rev_app_distr. simpl. constructor; [ | exact H].
  rewrite <- in_rev. exact (get_None_keys k m E).
Qed.

End MapFacts.

Lemma given_text (f : option string) :
  given f = true -> f = Some (text f) /\ text f <> EmptyString.
Proof.
  destruct f as [s | ]; simpl; [ | discriminate].
  destruct (String.eqb_spec s EmptyString); [discriminate | auto].
Qed.

(** A registration that succeeds, spelled out. *)
Lemma register_success (rt : runtime) (sv : services) (cfg : config)
  (at_ : readings) (store store' : users) (body : credentials)
  (r : response) :
  register rt sv cfg at_ store body = (store', Normal r) ->
  given (c_email body) = true
  /\ given (c_password body) = true
  /\ isValidEmail (text (c_email body)) = true
  /\ isValidPassword (text (c_password body)) = true
  /\ JsMap.get (text (c_email body)) store = None
  /\ exists account,
       store' = JsMap.set (text (c_email body)) account store
       /\ a_email account = text (c_email body)
       /\ a_role account = "user"
       /\ a_password account
          = bcrypt_hash sv (text (c_password body)) (salt at_)
       /\ r = session 201 account
                (generateToken sv cfg (at_signed at_) account).
Proof.
  unfold register, JsMap.has.
  destruct (given (c_email body)); [ | discriminate].
  destruct (given (c_password body)); [ | discriminate].
  destruct (given (c_name body)); [ | discriminate]. cbn [negb orb].
  destruct (isValidEmail (text (c_email body))); [ | discriminate].
  destruct (isValidPassword (text (c_password body))); [ | discriminate].
  cbn [negb].
  destruct (JsMap.get (text (c_email body)) store); [discriminate | ].
  intros H. injection H as <- <-.
  repeat split; auto. eexists. repeat split.
Qed.

(** X15. Registration followed by login is a round trip, for a body whose
    e-mail, password and name are JSON strings: with a [bcrypt] whose
    [compare] accepts the hashes it makes, logging in with the address and
    password of a registration that succeeded succeeds, with status 200, and
    leaves the store as registration left it. *)
Theorem register_then_login (rt : runtime) (sv : services) (cfg : config)
  (at1 at2 : readings) (store store' : users) (email password name : string)
  (r : response) :
  bcrypt_sound sv ->
  register rt sv cfg at1 store
           (mkCredentials (Some email) (Some password) (Some name))
  = (store', Normal r) ->
  exists r',
    login rt sv cfg at2 store'
          (mkCredentials (Some email) (Some password) None)
    = (store', Normal r')
    /\ status_code r' = Num 200.
Proof.
  intros Hsound H.
  destruct (register_success _ _ _ _ _ _ _ _ H)
    as [He [Hp [_ [_ [_ [account [-> [_ [_ [Hpw _]]]]]]]]]].
  cbn [c_email c_password c_name text] in He, Hp, Hpw |- *.
  unfold login. cbn [c_email c_password text]. rewrite He, Hp.
  cbn [negb orb].
  rewrite get_set_same, Hpw, Hsound. cbn [negb].
  eexists. split; reflexivity.
Qed.

Lemma demo_bcrypt_sound : bcrypt_sound demo_services.
Proof. intros password salt. cbn. apply String.eqb_refl. Qed.

Lemma register_then_login_witness :
  exists r',
    login demo_runtime demo_services production_cfg demo_readings
          (fst (register demo_runtime demo_services production_cfg
                  demo_readings [] ada))
          (mkCredentials (Some "ada@example.com") (Some "Passw0rd!") None)
    = (fst (register demo_runtime demo_services production_cfg
              demo_readings [] ada), Normal r')
    /\ status_code r' = Num 200.
Proof.
  apply (register_then_login demo_runtime demo_services production_cfg
           demo_readings demo_readings []
           (fst (register demo_runtime demo_services production_cfg
                   demo_readings [] ada))
           "ada@example.com" "Passw0rd!" "Ada"
           (session 201
              (mkAccount (toString 1700000000000) "ada@example.com" "Ada"
                 "$2a$10$Passw0rd!" "user" 1700000000001 1700000000001)
              demo_token)).
  - exact demo_bcrypt_sound.
  - reflexivity.
Defined.

(** X16. An address can be registered once, for bodies whose fields are JSON
    strings or left out: after a registration that succeeded, every further
    registration under the same address, whatever its password and name,
    fails, with status 400 or 409, and leaves the store as it was. *)
Theorem register_twice_fails (rt : runtime) (sv : services) (cfg : config)
  (at1 at2 : readings) (store store' : users) (email password name : string)
  (password' name' : option string) (r : response) :
  register rt sv cfg at1 store
           (mkCredentials (Some email) (Some password) (Some name))
  = (store', Normal r) ->
  exists e,
    register rt sv cfg at2 store' (mkCredentials (Some email) password' name')
    = (store', Throw e)
    /\ (e_status e = Num 400 \/ e_status e = Num 409).
Proof.
  intros H.
  destruct (register_success _ _ _ _ _ _ _ _ H)
    as [_ [_ [_ [_ [_ [account [-> _]]]]]]].
  cbn [c_email c_password c_name text].
  unfold register, JsMap.has. cbn [c_email c_password c_name text].
  destruct (negb (given (Some email)) || negb (given password')
            || negb (given name'));
    [eexists; split; [reflexivity | left; reflexivity] | ].
  destruct (negb (isValidEmail email));
    [eexists; split; [reflexivity | left; reflexivity] | ].
  destruct (negb (isValidPassword (text password')));
    [eexists; split; [reflexivity | left; reflexivity] | ].
  rewrite get_set_same.
  eexists; split; [reflexivity | right; reflexivity].
Qed.

Lemma register_twice_fails_witness :
  exists e,
    register demo_runtime demo_services production_cfg demo_readings
      (fst (register demo_runtime demo_services production_cfg
              demo_readings [] ada))
      (mkCredentials (Some "ada@example.com") (Some "An0ther#Pass")
                     (Some "Eve"))
    = (fst (register demo_runtime demo_services production_cfg
              demo_readings [] ada), Throw e)
    /\ (e_status e = Num 400 \/ e_status e = Num 409).
Proof.
  apply (register_twice_fails demo_runtime demo_services production_cfg
           demo_readings demo_readings []
           (fst (register demo_runtime demo_services production_cfg
                   demo_readings [] ada))
           "ada@example.com" "Passw0rd!" "Ada"
           (Some "An0ther#Pass") (Some "Eve")
           (session 201
              (mkAccount (toString 1700000000000) "ada@example.com" "Ada"
                 "$2a$10$Passw0rd!" "user" 1700000000001 1700000000001)
              demo_token)).
  reflexivity.
Defined.

(** X17. A failed login says nothing about its cause: once an address and a
    password are given, an unknown address and a wrong password are answered
    with the same error, [Invalid credentials] with status 401. *)
Theorem login_failure_is_uniform (rt : runtime) (sv : services)
  (cfg : config) (at_ : readings) (store : users) (body : credentials)
  (e : error) :
  given (c_email body) = true ->
  given (c_password body) = true ->
  snd (login rt sv cfg at_ store body) = Throw e ->
  e = new_APIError rt "Invalid credentials" 401.
Proof.
  unfold login. intros -> ->. cbn [negb orb].
  destruct (JsMap.get (text (c_email body)) store) as [account | ].
  - destruct (bcrypt_compare sv (text (c_password body)) (a_password account));
      cbn; [discriminate | congruence].
  - cbn. congruence.
Qed.

Lemma login_failure_is_uniform_witness :
  new_APIError demo_runtime "Invalid credentials" 401
  = new_APIError demo_runtime "Invalid credentials" 401.
Proof.
  apply (login_failure_is_uniform demo_runtime demo_services production_cfg
           demo_readings [] ada); reflexivity.
Defined.

Lemma login_keeps_store (rt : runtime) (sv : services) (cfg : config)
  (at_ : readings) (store : users) (body : credentials) :
  fst (login rt sv cfg at_ store body) = store.
Proof.
  unfold login.
  destruct (negb (given (c_email body)) || negb (given (c_password body)));
    [reflexivity | ].
  destruct (JsMap.get (text (c_email body)) store) as [account | ];
    [ | reflexivity].
  destruct (negb (bcrypt_compare sv _ _)); reflexivity.
Qed.

Lemma register_failure_keeps_store (rt : runtime) (sv : services)
  (cfg : config) (at_ : readings) (store : users) (body : credentials)
  (e : error) :
  snd (register rt sv cfg at_ store body) = Throw e ->
  fst (register rt sv cfg at_ store body) = store.
Proof.
  unfold register.
  destruct (negb (given (c_email body)) || negb (given (c_password body))
            || negb (given (c_name body))); [reflexivity | ].
  destruct (negb (isValidEmail _)); [reflexivity | ].
  destruct (negb (isValidPassword _)); [reflexivity | ].
  destruct (JsMap.has _ store); [reflexivity | discriminate].
Qed.

Lemma register_keeps_others (rt : runtime) (sv : services) (cfg : config)
  (at_ : readings) (store : users) (body : credentials) (k : string) :
  k <> text (c_email body) ->
  JsMap.get k (fst (register rt sv cfg at_ store body)) = JsMap.get k store.
Proof.
  intros Hk. unfold register.
  destruct (negb (given (c_email body)) || negb (given (c_password body))
            || negb (given (c_name body))); [reflexivity | ].
  destruct (negb (isValidEmail _)); [reflexivity | ].
  destruct (negb (isValidPassword _)); [reflexivity | ].
  destruct (JsMap.has _ store); [reflexivity | ].
  cbn [fst]. apply get_set_other. exact Hk.
Qed.

(** X18. Only a registration that succeeds adds to the store: [login] never
    changes it, a registration that fails leaves it as it was, and a
    registration never touches the account filed under another address. *)
Theorem store_changes_only_by_registration (rt : runtime) (sv : services)
  (cfg : config) (at_ : readings) (store : users) (body : credentials) :
  fst (login rt sv cfg at_ store body) = store
  /\ (forall e, snd (register rt sv cfg at_ store body) = Throw e ->
                fst (register rt sv cfg at_ store body) = store)
  /\ (forall k, k <> text (c_email body) ->
                JsMap.get k (fst (register rt sv cfg at_ store body))
                = JsMap.get k store).
Proof.
  refine (conj _ (conj _ _)).
  - apply login_keeps_store.
  - apply register_failure_keeps_store.
  - apply register_keeps_others.
Qed.

Lemma store_ok_set (store : users) (k : string) (account : account) :
  store_ok store ->
  a_email account = k -> a_role account = "user" -> isValidEmail k = true ->
  store_ok (JsMap.set k account store).
Proof.
  intros [Hnd Hall] He Hr Hv. split.
  - apply NoDup_keys_set. exact Hnd.
  - intros k' account' Hin.
    destruct (In_set _ _ _ _ _ Hin) as [[-> ->] | Hold]; auto.
Qed.

Lemma current_account_In (rt : runtime) (store : users) (req : request)
  (email : string) (account : account) :
  current_account rt store req = Normal (Some (email, account)) ->
  In (email, account) store /\ get (user req) "email" = Str email.
Proof.
  unfold current_account.
  destruct (user req) as [ | | b | z | | s | ps | xs]; try discriminate;
    cbn [get]; try discriminate.
  destruct (lookup "email" ps) as [ | | b | z | | s | qs | ys];
    try discriminate.
  destruct (JsMap.get s store) as [a | ] eqn:E; [ | discriminate].
  intros H. injection H as <- <-. split; [ | reflexivity].
  exact (get_In _ _ _ E).
Qed.

Lemma auth_step_ok (rt : runtime) (sv : services) (cfg : config)
  (store store' : users) :
  store_ok store -> auth_step rt sv cfg store store' -> store_ok store'.
Proof.
  intros Hok Hstep. destruct Hstep as [at_ store body | at_ store body
                                      | at_ store req body].
  - destruct (register rt sv cfg at_ store body) as [s' [r | e]] eqn:E.
    + destruct (register_success _ _ _ _ _ _ _ _ E)
        as [_ [_ [Hv [_ [_ [account [-> [He [Hr _]]]]]]]]].
      cbn [fst]. apply store_ok_set; assumption.
    + pose proof (register_failure_keeps_store rt sv cfg at_ store body e)
        as Hkeep.
      rewrite E in Hkeep. cbn [fst snd] in *.
      rewrite (Hkeep eq_refl). exact Hok.
  - rewrite login_keeps_store. exact Hok.
  - unfold change_password.
    destruct (negb (given (currentPassword body))
              || negb (given (newPassword body))); [exact Hok | ].
    destruct (negb (isValidPassword _)); [exact Hok | ].
    destruct (current_account rt store req) as [[[email account] | ] | e]
      eqn:E; [ | exact Hok | exact Hok].
    destruct (negb (bcrypt_compare sv _ _)); [exact Hok | ].
    cbn [fst]. destruct (current_account_In _ _ _ _ _ E) as [Hin _].
    destruct Hok as [Hnd Hall]. destruct (Hall _ _ Hin) as [He [Hr Hv]].
    apply store_ok_set; [split; assumption | exact He | exact Hr | exact Hv].
Qed.

(** X19. Every store the router can reach from the empty one, by any
    sequence of registrations, logins and password changes, holds one entry
    per address, files each account under its own valid address, and gives
    every account the role [user]: no request of the router makes an
    administrator. *)
Theorem auth_store_invariant (rt : runtime) (sv : services) (cfg : config)
  (store : users) :
  auth_reachable rt sv cfg store ->
  NoDup (JsMap.keys store)
  /\ forall k account,
       In (k, account) store ->
       a_email account = k /\ a_role account = "user"
       /\ isValidEmail k = true.
Proof.
  intros H. change (store_ok store).
  induction H as [ | store store' _ IH Hstep].
  - split; [constructor | intros k account []].
  - exact (auth_step_ok rt sv cfg store store' IH Hstep).
Qed.

Lemma auth_store_invariant_witness :
  NoDup (JsMap.keys (fst (register demo_runtime demo_services production_cfg
                            demo_readings [] ada)))
  /\ forall k account,
       In (k, account)
          (fst (register demo_runtime demo_services production_cfg
                  demo_readings [] ada)) ->
       a_email account = k /\ a_role account = "user"
       /\ isValidEmail k = true.
Proof.
  apply (auth_store_invariant demo_runtime demo_services production_cfg).
  eapply reach_step; [apply reach_empty | apply step_register].
Defined.

(** X20. [GET /me] and [PUT /change-password] read [req.user.email], and the
    router mounts them with no middleware that sets [req.user]. For a request
    with no identity, [/me] ends in a [TypeError] whatever the store holds;
    the wrapper passes it to [next], and the error-handling middleware of
    [server.js] answers with status 500 and the message of the [TypeError]
    itself, where [errorHandler] would have sent the fixed string.
    [/change-password], on a body whose two fields are strings, the first
    not empty and the second a valid password, ends in the same [TypeError]
    and leaves the store as it was. *)
Theorem me_without_identity (rt : runtime) (sv : services) (cfg : config)
  (at_ : readings) (store : users) (req : request) (n : nat) :
  user req = Undefined ->
  exists e,
    e = type_error rt "Cannot read properties of undefined (reading 'email')"
    /\ asyncHandler (async_handler n (me rt store req)) = Forwarded e
    /\ route serverErrorHandler []
             (fun req => async_handler n (me rt store req)) req
       = Answered (serverErrorHandler e)
    /\ status_code (serverErrorHandler e) = Num 500
    /\ wire (serverErrorHandler e)
       = Some (Obj [("error",
                     Obj [ ("message", e_message e); ("status", Num 500) ])])
    /\ lookup "message" (payload (respond cfg e))
       = Str "Internal Server Error"
    /\ forall current new,
         current <> EmptyString ->
         isValidPassword new = true ->
         change_password rt sv at_ store req
           (mkPasswordChange (Some current) (Some new))
         = (store, Throw e).
Proof.
  intros Hu.
  assert (Hme : me rt store req
                = Throw (type_error rt
                     "Cannot read properties of undefined (reading 'email')")).
  { unfold me, current_account. rewrite Hu. reflexivity. }
  eexists. split; [reflexivity | ].
  refine (conj _ (conj _ (conj _ (conj _ (conj _ _))))).
  - rewrite Hme. apply asyncHandler_rejected, settle_awaits.
  - unfold route. cbn [pipeline]. rewrite Hme.
    unfold async_handler.
    rewrite (asyncHandler_rejected _ _ (settle_awaits n (Raise _))).
    reflexivity.
  - reflexivity.
  - reflexivity.
  - rewrite payload_eq. reflexivity.
  - intros current new Hc Hv. unfold change_password, current_account.
    cbn [currentPassword newPassword given text].
    destruct current as [ | c current]; [contradiction Hc; reflexivity | ].
    destruct new as [ | c' new]; [discriminate Hv | ].
    rewrite Hv, Hu. reflexivity.
Qed.

Lemma me_without_identity_witness :
  exists e,
    e = type_error demo_runtime "Cannot read properties of undefined (reading 'email')"
    /\ asyncHandler (async_handler 0 (me demo_runtime [] bare_request)) = Forwarded e
    /\ route serverErrorHandler []
             (fun req => async_handler 0 (me demo_runtime [] req)) bare_request
       = Answered (serverErrorHandler e)
    /\ status_code (serverErrorHandler e) = Num 500
    /\ wire (serverErrorHandler e)
       = Some (Obj [("error",
                     Obj [ ("message", e_message e); ("status", Num 500) ])])
    /\ lookup "message" (payload (respond production_cfg e))
       = Str "Internal Server Error"
    /\ forall current new,
         current <> EmptyString ->
         isValidPassword new = true ->
         change_password demo_runtime demo_services demo_readings [] bare_request
           (mkPasswordChange (Some current) (Some new))
         = ([], Throw e).
Proof.
  apply (me_without_identity demo_runtime demo_services production_cfg
           demo_readings [] bare_request 0).
  reflexivity.
Defined.

(** X21. After a password change that succeeds on a store the router can
    reach, and with a [bcrypt] whose [compare] accepts the hashes it makes,
    logging in under the address of the identity with the new password
    succeeds. *)
Theorem change_password_then_login (rt : runtime) (sv : services)
  (cfg : config) (at1 at2 : readings) (store store' : users)
  (req : request) (body : password_change) (r : response) :
  bcrypt_sound sv ->
  auth_reachable rt sv cfg store ->
  change_password rt sv at1 store req body = (store', Normal r) ->
  exists email r',
    get (user req) "email" = Str email
    /\ login rt sv cfg at2 store'
             (mkCredentials (Some email) (newPassword body) None)
       = (store', Normal r')
    /\ status_code r' = Num 200.
Proof.
  intros Hsound Hreach. unfold change_password.
  destruct (given (currentPassword body)); [ | discriminate].
  destruct (given (newPassword body)) eqn:Hn; [ | discriminate].
  cbn [negb orb].
  destruct (isValidPassword (text (newPassword body))); [ | discriminate].
  cbn [negb].
  destruct (current_account rt store req) as [[[email account] | ] | e]
    eqn:E; try discriminate.
  destruct (bcrypt_compare sv _ (a_password account)); [ | discriminate].
  cbn [negb]. intros H. injection H as <- <-.
  destruct (current_account_In _ _ _ _ _ E) as [Hin Hemail].
  assert (Hok : store_ok store).
  { clear - Hreach. induction Hreach as [ | s s' _ IH Hstep].
    - split; [constructor | intros k a []].
    - exact (auth_step_ok rt sv cfg s s' IH Hstep). }
  destruct Hok as [_ Hall]. destruct (Hall _ _ Hin) as [_ [_ Hvalid]].
  assert (Hne : (email =? EmptyString) = false).
  { destruct (String.eqb_spec email EmptyString) as [-> | ]; [ | reflexivity].
    discriminate Hvalid. }
  exists email. eexists. split; [exact Hemail | ].
  unfold login. cbn [c_email c_password given text]. rewrite Hne, Hn.
  cbn [negb orb]. rewrite get_set_same. cbn [a_password].
  rewrite Hsound. cbn [negb]. split; reflexivity.
Qed.

Lemma change_password_then_login_witness :
  exists email r',
    get (user ada_request) "email" = Str email
    /\ login demo_runtime demo_services production_cfg demo_readings
             (fst (change_password demo_runtime demo_services demo_readings
                     ada_store ada_request ada_change))
             (mkCredentials (Some email) (newPassword ada_change) None)
       = (fst (change_password demo_runtime demo_services demo_readings
                 ada_store ada_request ada_change), Normal r')
    /\ status_code r' = Num 200.
Proof.
  apply (change_password_then_login demo_runtime demo_services production_cfg
           demo_readings demo_readings ada_store
           (fst (change_password demo_runtime demo_services demo_readings
                   ada_store ada_request ada_change))
           ada_request ada_change
           (mkResponse (Num 200)
              (Obj [ ("success", Boolean true);
                     ("message", Str "Password updated successfully") ]))).
  - exact demo_bcrypt_sound.
  - eapply reach_step; [apply reach_empty | apply step_register].
  - reflexivity.
Defined.

(** * The payment routes *)

Lemma owned_payment_get (rt : runtime) (store : payments) (req : request)
  (id : string) (p : payment) :
  owned_payment rt store req id = Normal p ->
  JsMap.get id store = Some p
  /\ exists userId, identity_id rt req = Normal userId
                    /\ strict_eq (p_userId p) userId = true.
Proof.
  unfold owned_payment.
  destruct (JsMap.get id store) as [q | ]; [ | discriminate].
  destruct (identity_id rt req) as [userId | e]; cbn [bind]; [ | discriminate].
  destruct (strict_eq (p_userId q) userId) eqn:E; cbn [negb];
    [ | discriminate].
  intros H. injection H as <-. split; [reflexivity | ]. eauto.
Qed.

(** A refund that succeeds, spelled out. *)
Lemma refund_success (rt : runtime) (refundedAt updated : Z)
  (store store' : payments) (req : request) (id : string)
  (body : refund_request) (r : response) :
  refund_payment rt refundedAt updated store req id body = (store', Normal r) ->
  exists p p',
    owned_payment rt store req id = Normal p
    /\ p_status p = "succeeded" /\ p_refunded p = false
    /\ (refund_amount (rf_amount body) p <= p_amount p)%Z
    /\ store' = JsMap.set id p' store
    /\ p_status p' = "refunded" /\ p_refunded p' = true
    /\ p_refundAmount p' = Some (refund_amount (rf_amount body) p)
    /\ p_id p' = p_id p /\ p_amount p' = p_amount p
    /\ p_userId p' = p_userId p.
Proof.
  unfold refund_payment.
  destruct (owned_payment rt store req id) as [p | e]; [ | discriminate].
  destruct (String.eqb_spec (p_status p) "succeeded") as [Hs | ];
    cbn [negb]; [ | discriminate].
  destruct (p_refunded p) eqn:Hr; [discriminate | ].
  destruct (Z.ltb_spec (p_amount p) (refund_amount (rf_amount body) p))
    as [Hlt | Hge]; [discriminate | ].
  intros H. injection H as <- <-.
  exists p. eexists. repeat split; auto.
Qed.


(** X23. The two requests that change a payment change at most the payment
    they name, and only for the identity that owns it: every other payment,
    and every payment when the identity is absent or another's, is as it
    was. *)
Theorem payments_change_only_their_own (rt : runtime) (t1 t2 : Z)
  (outcome : gateway) (store : payments) (req : request) (id k : string)
  (body : refund_request) :
  (k <> id \/ exists e, owned_payment rt store req id = Throw e) ->
  JsMap.get k (fst (process_payment rt t1 outcome store req id))
  = JsMap.get k store
  /\ JsMap.get k (fst (refund_payment rt t1 t2 store req id body))
     = JsMap.get k store.
Proof.
  intros H. unfold process_payment, refund_payment.
  destruct (owned_payment rt store req id) as [p | e];
    [ | split; reflexivity].
  destruct H as [Hk | [e He]]; [ | discriminate].
  split.
  - destruct (negb (p_status p =? "pending")); [reflexivity | ].
    destruct outcome; cbn [fst]; apply get_set_other; exact Hk.
  - destruct (negb (p_status p =? "succeeded")); [reflexivity | ].
    destruct (p_refunded p); [reflexivity | ].
    destruct (p_amount p <? refund_amount (rf_amount body) p)%Z;
      [reflexivity | ].
    cbn [fst]. apply get_set_other. exact Hk.
Qed.

Lemma payment_ok_set (store : payments) (k : string) (p : payment) :
  NoDup (JsMap.keys store) ->
  (forall k' p', In (k', p') store -> payment_ok k' p') ->
  payment_ok k p ->
  NoDup (JsMap.keys (JsMap.set k p store))
  /\ forall k' p', In (k', p') (JsMap.set k p store) -> payment_ok k' p'.
Proof.
  intros Hnd Hall Hp. split; [apply NoDup_keys_set; exact Hnd | ].
  intros k' p' Hin.
  destruct (In_set _ _ _ _ _ Hin) as [[-> ->] | Hold]; auto.
Qed.

Lemma payment_step_ok (rt : runtime) (store store' : payments) :
  NoDup (JsMap.keys store) ->
  (forall k p, In (k, p) store -> payment_ok k p) ->
  payment_step rt store store' ->
  NoDup (JsMap.keys store')
  /\ forall k p, In (k, p) store' -> payment_ok k p.
Proof.
  intros Hnd Hall Hstep.
  destruct Hstep as [now created store req body
                    | updated outcome store req id
                    | refundedAt updated store req id body].
  - unfold create_payment.
    destruct (bad_amount (pr_amount body)) eqn:Hb; [auto | ].
    destruct (negb (given (pr_paymentMethod body))); [auto | ].
    destruct (pr_amount body) as [a | ]; [ | auto].
    destruct (identity_id rt req) as [userId | e]; [ | auto].
    cbn [fst p_id]. apply payment_ok_set; auto.
    simpl in Hb. apply orb_false_elim in Hb. destruct Hb as [_ Hle].
    apply Z.leb_gt in Hle.
    unfold payment_ok. cbn.
    repeat split; auto; try discriminate.
  - unfold process_payment.
    destruct (owned_payment rt store req id) as [p | e] eqn:E; [ | auto].
    destruct (owned_payment_get _ _ _ _ _ E) as [Hget _].
    destruct (Hall _ _ (get_In _ _ _ Hget)) as [Hid [Ha [_ [Hr Hra]]]].
    destruct (String.eqb_spec (p_status p) "pending") as [Hs | ];
      cbn [negb]; [ | auto].
    assert (Hnr : p_refunded p = false).
    { destruct (p_refunded p); [ | reflexivity].
      destruct Hr as [Hr _]. rewrite (Hr eq_refl) in Hs. discriminate. }
    destruct outcome as [gid fee timestamp | ]; cbn [fst];
      apply payment_ok_set; auto; unfold payment_ok; cbn;
        rewrite Hnr; repeat split; auto; discriminate.
  - destruct (refund_payment rt refundedAt updated store req id body)
      as [s' [r | e]] eqn:E.
    + destruct (refund_success _ _ _ _ _ _ _ _ _ E)
        as [p [p' [Ho [_ [_ [Hle [-> [Hs [Hr [Hra [Hid [Ha _]]]]]]]]]]]].
      destruct (owned_payment_get _ _ _ _ _ Ho) as [Hget _].
      destruct (Hall _ _ (get_In _ _ _ Hget)) as [Hidp [Hap _]].
      cbn [fst]. apply payment_ok_set; auto.
      unfold payment_ok. rewrite Hs, Hr, Hra, Hid, Ha.
      repeat split; auto.
      intros a Heq. injection Heq as <-. exact Hle.
    + assert (Hkeep : s' = store).
      { revert E. unfold refund_payment.
        destruct (owned_payment rt store req id) as [p | e0];
          [ | congruence].
        destruct (negb (p_status p =? "succeeded")); [congruence | ].
        destruct (p_refunded p); [congruence | ].
        destruct (p_amount p <? refund_amount (rf_amount body) p)%Z;
          [congruence | discriminate]. }
      cbn [fst]. subst s'. auto.
Qed.

Lemma payment_reachable_ok (rt : runtime) (store : payments) :
  payment_reachable rt store ->
  NoDup (JsMap.keys store)
  /\ forall k p, In (k, p) store -> payment_ok k p.
Proof.
  induction 1 as [ | store store' _ [Hnd Hall] Hstep].
  - split; [constructor | intros k p []].
  - exact (payment_step_ok rt store store' Hnd Hall Hstep).
Qed.

(** X24. Every store the payment routes reach from the empty one keeps each
    payment under its own id, with a positive amount, in one of the states
    [pending], [succeeded], [failed], [refunded]; the flag [refunded] is set
    exactly in the state [refunded], and a refunded amount never exceeds the
    amount paid. *)
Theorem payment_store_invariant (rt : runtime) (store : payments)
  (k : string) (p : payment) :
  payment_reachable rt store ->
  In (k, p) store ->
  p_id p = k
  /\ (0 < p_amount p)%Z
  /\ (p_status p = "pending" \/ p_status p = "succeeded"
      \/ p_status p = "failed" \/ p_status p = "refunded")
  /\ (p_refunded p = true <-> p_status p = "refunded")
  /\ (forall a, p_refundAmount p = Some a -> (a <= p_amount p)%Z).
Proof.
  intros Hreach Hin.
  destruct (payment_reachable_ok rt store Hreach) as [_ Hall].
  exact (Hall k p Hin).
Qed.

(** X25. On a store the payment routes can reach, the guard against a second
    refund never fires: no refund request is answered with [Payment has
    already been refunded], because a refunded payment has already left the
    state [succeeded]. *)
Theorem already_refunded_is_unreachable (rt : runtime) (t1 t2 : Z)
  (store : payments) (req : request) (id : string) (body : refund_request) :
  payment_reachable rt store ->
  snd (refund_payment rt t1 t2 store req id body)
  <> Throw (new_APIError rt "Payment has already been refunded" 400).
Proof.
  intros Hreach. destruct (payment_reachable_ok rt store Hreach) as [_ Hall].
  unfold refund_payment.
  destruct (owned_payment rt store req id) as [p | e] eqn:E.
  - destruct (owned_payment_get _ _ _ _ _ E) as [Hget _].
    destruct (Hall _ _ (get_In _ _ _ Hget)) as [_ [_ [_ [Hr _]]]].
    destruct (String.eqb_spec (p_status p) "succeeded") as [Hs | ];
      cbn [negb]; [ | cbn; intros H; inversion H].
    destruct (p_refunded p).
    + destruct Hr as [Hr _]. rewrite (Hr eq_refl) in Hs. discriminate.
    + destruct (p_amount p <? refund_amount (rf_amount body) p)%Z; cbn;
        [intros H; inversion H | discriminate].
  - cbn. intros H. injection H as ->. revert E. unfold owned_payment.
    destruct (JsMap.get id store) as [q | ]; [ | intros H; inversion H].
    destruct (identity_id rt req) as [userId | e'] eqn:Ei; cbn [bind].
    + destruct (negb (strict_eq (p_userId q) userId)); intros H; inversion H.
    + intros H. injection H as ->. revert Ei. unfold identity_id.
      destruct (user req); discriminate.
Qed.

Lemma paid_store_reachable : payment_reachable demo_runtime paid_store.
Proof.
  eapply pay_step; [ | apply step_process].
  eapply pay_step; [apply pay_empty | apply step_create].
Qed.


Lemma payments_change_only_their_own_witness :
  JsMap.get pay_id
    (fst (process_payment demo_runtime 1700000001000 Declined pending_store
            other_request pay_id))
  = JsMap.get pay_id pending_store
  /\ JsMap.get pay_id
       (fst (refund_payment demo_runtime 1700000001000 1700000002000
               pending_store other_request pay_id full_refund))
     = JsMap.get pay_id pending_store.
Proof.
  apply (payments_change_only_their_own demo_runtime 1700000001000
           1700000002000 Declined pending_store other_request pay_id pay_id
           full_refund).
  right. eexists. reflexivity.
Defined.

Lemma payment_store_invariant_witness :
  p_id paid_payment = pay_id
  /\ (0 < p_amount paid_payment)%Z
  /\ (p_status paid_payment = "pending"
      \/ p_status paid_payment = "succeeded"
      \/ p_status paid_payment = "failed"
      \/ p_status paid_payment = "refunded")
  /\ (p_refunded paid_payment = true <-> p_status paid_payment = "refunded")
  /\ (forall a, p_refundAmount paid_payment = Some a ->
                (a <= p_amount paid_payment)%Z).
Proof.
  apply (payment_store_invariant demo_runtime paid_store pay_id paid_payment).
  - exact paid_store_reachable.
  - simpl. left. reflexivity.
Defined.

Lemma already_refunded_is_unreachable_witness :
  snd (refund_payment demo_runtime 1700000003000 1700000003000 paid_store
         pay_request pay_id full_refund)
  <> Throw (new_APIError demo_runtime "Payment has already been refunded" 400).
Proof.
  apply (already_refunded_is_unreachable demo_runtime 1700000003000
           1700000003000 paid_store pay_request pay_id full_refund).
  exact paid_store_reachable.
Defined.



(** X27. Payment ids are clock readings, and [create] does not look for an
    id already in use: a payment created at a reading whose id is taken
    replaces the payment stored under it, whoever owned that one, and the
    store holds no more payments than before. *)
Theorem create_replaces_same_id (rt : runtime) (now created : Z)
  (store store' : payments) (req : request) (body : payment_request)
  (old : payment) (r : response) :
  JsMap.get (toString now) store = Some old ->
  create_payment rt now created store req body = (store', Normal r) ->
  exists p,
    JsMap.get (toString now) store' = Some p
    /\ p_status p = "pending"
    /\ identity_id rt req = Normal (p_userId p)
    /\ JsMap.keys store' = JsMap.keys store.
Proof.
  intros Hold. unfold create_payment.
  destruct (bad_amount (pr_amount body)); [discriminate | ].
  destruct (negb (given (pr_paymentMethod body))); [discriminate | ].
  destruct (pr_amount body) as [a | ]; [ | discriminate].
  destruct (identity_id rt req) as [userId | e]; [ | discriminate].
  cbn [p_id]. intros H. injection H as <- _.
  eexists. rewrite get_set_same. repeat split.
  rewrite keys_set. unfold JsMap.has. rewrite Hold. reflexivity.
Qed.

Lemma create_replaces_same_id_witness :
  exists p,
    JsMap.get (toString 1700000000000)
      (fst (create_payment demo_runtime 1700000000000 1700000000005
              paid_store other_request pay_body)) = Some p
    /\ p_status p = "pending"
    /\ identity_id demo_runtime other_request = Normal (p_userId p)
    /\ JsMap.keys (fst (create_payment demo_runtime 1700000000000
                          1700000000005 paid_store other_request pay_body))
       = JsMap.keys paid_store.
Proof.
  eapply (create_replaces_same_id demo_runtime 1700000000000 1700000000005
            paid_store _ other_request pay_body).
  - reflexivity.
  - reflexivity.
Defined.

(** X28. A refund checks its amount from above only: for a payment that is
    owned, [succeeded] and not refunded, every non-zero amount up to the
    amount paid is accepted and recorded as given, negative amounts
    included; no amount, or zero, refunds the amount paid. *)
Theorem refund_amount_checked_from_above (rt : runtime) (t1 t2 : Z)
  (store : payments) (req : request) (id : string) (p : payment)
  (body : refund_request) :
  owned_payment rt store req id = Normal p ->
  p_status p = "succeeded" ->
  p_refunded p = false ->
  (refund_amount (rf_amount body) p <= p_amount p)%Z ->
  exists p' r,
    refund_payment rt t1 t2 store req id body
    = (JsMap.set id p' store, Normal r)
    /\ p_status p' = "refunded"
    /\ p_refundAmount p'
       = Some (match rf_amount body with
               | Some a => if (a =? 0)%Z then p_amount p else a
               | None => p_amount p
               end).
Proof.
  intros Ho Hs Hr Hle. unfold refund_payment.
  rewrite Ho, Hs, Hr. cbn [String.eqb negb].
  destruct (Z.ltb_spec (p_amount p) (refund_amount (rf_amount body) p))
    as [Hlt | _]; [lia | ].
  eexists. eexists. repeat split.
Qed.

Lemma refund_amount_checked_from_above_witness :
  exists p' r,
    refund_payment demo_runtime 1700000002000 1700000002000 paid_store
                   pay_request pay_id (mkRefundRequest (Some (-5)%Z) None)
    = (JsMap.set pay_id p' paid_store, Normal r)
    /\ p_status p' = "refunded"
    /\ p_refundAmount p' = Some (-5)%Z.
Proof.
  apply (refund_amount_checked_from_above demo_runtime 1700000002000
           1700000002000 paid_store pay_request pay_id
           (mkPayment pay_id (Str "42") 1000 "USD" "card" "succeeded"
              1700000000001 (Num 29) (Some 1700000001000%Z)
              (Some 1700000001000%Z) Undefined false None None None)
           (mkRefundRequest (Some (-5)%Z) None)).
  - reflexivity.
  - reflexivity.
  - reflexivity.
  - cbn. lia.
Defined.

(** * The blog resolvers *)

Section MapDeletion.

Context {V : Type}.

Lemma has_set (k k' : string) (v : V) (m : list (string * V)) :
  JsMap.has k' m = true -> JsMap.has k' (JsMap.set k v m) = true.
Proof.
  unfold JsMap.has. intros H.
  destruct (String.eqb_spec k' k) as [-> | Hne].
  - rewrite get_set_same. reflexivity.
  - rewrite (get_set_other k k' v m Hne). exact H.
Qed.

Lemma key_In (k : string) (v : V) (m : list (string * V)) :
  In (k, v) m -> In k (JsMap.keys m).
Proof. intros H. exact (in_map fst m (k, v) H). Qed.

Lemma In_unique (k : string) (v v' : V) (m : list (string * V)) :
  NoDup (JsMap.keys m) -> In (k, v) m -> In (k, v') m -> v = v'.
Proof.
  induction m as [ | [k0 v0] m IH]; simpl; intros Hnd H1 H2; [contradiction | ].
  inversion Hnd as [ | x l Hnotin Hnd']; subst.
  destruct H1 as [H1 | H1]; destruct H2 as [H2 | H2].
  - congruence.
  - injection H1 as -> ->. exfalso. exact (Hnotin (key_In _ _ _ H2)).
  - injection H2 as -> ->. exfalso. exact (Hnotin (key_In _ _ _ H1)).
  - exact (IH Hnd' H1 H2).
Qed.

Lemma In_get (k : string) (v : V) (m : list (string * V)) :
  NoDup (JsMap.keys m) -> In (k, v) m -> JsMap.get k m = Some v.
Proof.
  intros Hnd Hin. destruct (JsMap.get k m) as [v' | ] eqn:E.
  - f_equal. exact (In_unique k v' v m Hnd (get_In _ _ _ E) Hin).
  - exfalso. exact (get_None_keys k m E (key_In _ _ _ Hin)).
Qed.

Lemma filter_keys_NoDup (f : string * V -> bool) (m : list (string * V)) :
  NoDup (JsMap.keys m) -> NoDup (JsMap.keys (filter f m)).
Proof.
  induction m as [ | [k v] m IH]; simpl; intros Hnd; [constructor | ].
  inversion Hnd as [ | x l Hnotin Hnd']; subst.
  destruct (f (k, v)); simpl; [ | exact (IH Hnd')].
  constructor; [ | exact (IH Hnd')].
  intros Hin. apply Hnotin. unfold JsMap.keys in *.
  apply in_map_iff in Hin. destruct Hin as [[k' v'] [Hk Hin]].
  simpl in Hk. subst k'. apply filter_In in Hin.
  exact (key_In _ _ _ (proj1 Hin)).
Qed.

(** With one entry per key, deleting a key filters it out. *)
Lemma delete_filter (k : string) (m : list (string * V)) :
  NoDup (JsMap.keys m) ->
  JsMap.delete k m = filter (fun e => negb (k =? fst e)) m.
Proof.
  induction m as [ | [k' v'] m IH]; simpl; intros Hnd; [reflexivity | ].
  inversion Hnd as [ | x l Hnotin Hnd']; subst.
  destruct (String.eqb_spec k k') as [-> | Hne]; simpl.
  - symmetry. clear IH Hnd Hnd'.
    induction m as [ | [k0 v0] m IHm]; simpl; [reflexivity | ].
    destruct (String.eqb_spec k' k0) as [-> | Hk]; simpl.
    + exfalso. apply Hnotin. left. reflexivity.
    + f_equal. apply IHm. intros Hin. apply Hnotin. right. exact Hin.
  - f_equal. exact (IH Hnd').
Qed.

Lemma get_delete_same (k : string) (m : list (string * V)) :
  NoDup (JsMap.keys m) -> JsMap.get k (JsMap.delete k m) = None.
Proof.
  intros Hnd. destruct (JsMap.get k (JsMap.delete k m)) as [v | ] eqn:E;
    [ | reflexivity].
  apply get_In in E. rewrite (delete_filter k m Hnd) in E.
  apply filter_In in E. destruct E as [_ E]. simpl in E.
  rewrite String.eqb_refl in E. discriminate.
Qed.

Lemma get_delete_other (k k' : string) (m : list (string * V)) :
  k' <> k -> JsMap.get k' (JsMap.delete k m) = JsMap.get k' m.
Proof.
  intros Hne. induction m as [ | [k0 v0] m IH]; simpl; [reflexivity | ].
  destruct (String.eqb_spec k k0) as [-> | Hk]; simpl.
  - destruct (String.eqb_spec k' k0); [contradiction | reflexivity].
  - destruct (k' =? k0); [reflexivity | exact IH].
Qed.

End MapDeletion.

Lemma filter_filter {A : Type} (f g : A -> bool) (l : list A) :
  filter f (filter g l) = filter (fun x => g x && f x) l.
Proof.
  induction l as [ | x l IH]; simpl; [reflexivity | ].
  destruct (g x); simpl; [ | exact IH].
  destruct (f x); [f_equal | ]; exact IH.
Qed.

Lemma delete_comments_fold (id : string) (l acc : list (string * comment)) :
  NoDup (JsMap.keys acc) ->
  fold_left
    (fun acc entry =>
       if comment_postId (snd entry) =? id then JsMap.delete (fst entry) acc
       else acc)
    l acc
  = filter
      (fun e =>
         forallb (fun x => negb ((comment_postId (snd x) =? id)
                                 && (fst x =? fst e))) l)
      acc.
Proof.
  revert acc. induction l as [ | x l IH]; intros acc Hnd; simpl.
  - symmetry. clear Hnd. induction acc as [ | e acc IHa]; simpl;
      [reflexivity | f_equal; exact IHa].
  - destruct (comment_postId (snd x) =? id) eqn:Hx.
    + rewrite IH, (delete_filter (fst x) acc Hnd), filter_filter.
      * reflexivity.
      * rewrite (delete_filter (fst x) acc Hnd).
        apply filter_keys_NoDup. exact Hnd.
    + rewrite (IH acc Hnd). reflexivity.
Qed.

(** With one entry per key, the loop of [deletePost] removes exactly the
    comments on the post. *)
Lemma delete_comments_filter (id : string) (cs : list (string * comment)) :
  NoDup (JsMap.keys cs) ->
  delete_comments_of id cs = filter (on_other_post id) cs.
Proof.
  intros Hnd. unfold delete_comments_of.
  rewrite (delete_comments_fold id cs cs Hnd).
  apply filter_ext_in. intros [k c] Hin. unfold on_other_post. simpl.
  destruct (comment_postId c =? id) eqn:Hc; simpl.
  - apply not_true_is_false. intros Hall.
    rewrite forallb_forall in Hall. specialize (Hall (k, c) Hin).
    simpl in Hall. rewrite Hc, String.eqb_refl in Hall. discriminate.
  - apply forallb_forall. intros [k' c'] Hin'. simpl.
    destruct (String.eqb_spec k' k) as [-> | Hk];
      [ | rewrite andb_false_r; reflexivity].
    rewrite (In_unique k c' c cs Hnd Hin' Hin), Hc. reflexivity.
Qed.

Lemma blog_step_ok (rt : runtime) (b b' : blog) :
  blog_ok b -> blog_step rt b b' -> blog_ok b'.
Proof.
  intros Hok Hstep. pose proof Hok as [Hp [Hc [Hpid Hcom]]].
  destruct Hstep as [now created updated b context title content
                    | updated b context id title content
                    | b context id
                    | now created b context postId content
                    | b context id].
  - unfold addPost. destruct (negb (truthy context)); [exact Hok | ].
    cbn [fst post_id].
    refine (conj _ (conj Hc (conj _ _))); cbn [posts comments].
    + apply NoDup_keys_set. exact Hp.
    + intros k p Hin. destruct (In_set _ _ _ _ _ Hin) as [[-> ->] | Hold];
        [reflexivity | exact (Hpid _ _ Hold)].
    + intros k c H. split; [exact (proj1 (Hcom _ _ H)) | ].
      apply has_set. exact (proj2 (Hcom _ _ H)).
  - unfold updatePost. destruct (negb (truthy context)); [exact Hok | ].
    destruct (JsMap.get id (posts b)) as [p | ] eqn:E; [ | exact Hok].
    destruct (negb (strict_eq (post_author p) (get context "email")));
      [exact Hok | ].
    cbn [fst].
    refine (conj _ (conj Hc (conj _ _))); cbn [posts comments].
    + apply NoDup_keys_set. exact Hp.
    + intros k q Hin. destruct (In_set _ _ _ _ _ Hin) as [[-> ->] | Hold];
        [exact (Hpid _ _ (get_In _ _ _ E)) | exact (Hpid _ _ Hold)].
    + intros k c H. split; [exact (proj1 (Hcom _ _ H)) | ].
      apply has_set. exact (proj2 (Hcom _ _ H)).
  - unfold deletePost. destruct (negb (truthy context)); [exact Hok | ].
    destruct (JsMap.get id (posts b)) as [p | ] eqn:E; [ | exact Hok].
    destruct (negb (strict_eq (post_author p) (get context "email")));
      [exact Hok | ].
    cbn [fst].
    refine (conj _ (conj _ (conj _ _))); cbn [posts comments];
      rewrite ?(delete_comments_filter id (comments b) Hc).
    + rewrite (delete_filter id (posts b) Hp).
      apply filter_keys_NoDup. exact Hp.
    + apply filter_keys_NoDup. exact Hc.
    + intros k q Hin. rewrite (delete_filter id (posts b) Hp) in Hin.
      apply filter_In in Hin. exact (Hpid _ _ (proj1 Hin)).
    + intros k c H. apply filter_In in H. destruct H as [Hin Hkeep].
      split; [exact (proj1 (Hcom _ _ Hin)) | ].
      unfold on_other_post in Hkeep. simpl in Hkeep.
      unfold JsMap.has. rewrite get_delete_other.
      * exact (proj2 (Hcom _ _ Hin)).
      * intros Heq. rewrite Heq, String.eqb_refl in Hkeep. discriminate.
  - unfold addComment. destruct (negb (truthy context)); [exact Hok | ].
    destruct (JsMap.has postId (posts b)) eqn:Hhas; cbn [negb];
      [ | exact Hok].
    cbn [fst comment_id].
    refine (conj Hp (conj _ (conj Hpid _))); cbn [posts comments].
    + apply NoDup_keys_set. exact Hc.
    + intros k c H.
      destruct (In_set _ _ _ _ _ H) as [[-> ->] | Hold];
        [split; [reflexivity | exact Hhas] | exact (Hcom _ _ Hold)].
  - unfold deleteComment. destruct (negb (truthy context)); [exact Hok | ].
    destruct (JsMap.get id (comments b)) as [c | ] eqn:E; [ | exact Hok].
    destruct (negb (strict_eq (comment_author c) (get context "email")));
      [exact Hok | ].
    cbn [fst].
    refine (conj Hp (conj _ (conj Hpid _))); cbn [posts comments];
      rewrite (delete_filter id (comments b) Hc).
    + apply filter_keys_NoDup. exact Hc.
    + intros k c' H. apply filter_In in H. exact (Hcom _ _ (proj1 H)).
Qed.

Lemma blog_reachable_ok (rt : runtime) (b : blog) :
  blog_reachable rt b -> blog_ok b.
Proof.
  induction 1 as [ | b b' _ IH Hstep].
  - refine (conj _ (conj _ (conj _ _))); cbn [posts comments];
      try apply NoDup_nil; intros k x [].
  - exact (blog_step_ok rt b b' IH Hstep).
Qed.

(** X29. Comments never outlive their post: in every state the mutations
    reach from the empty one, each stored comment names a post that is
    stored, so the field [Comment.post] always resolves, to the post with
    that id. *)
Theorem comments_refer_to_posts (rt : runtime) (b : blog) (k : string)
  (c : comment) :
  blog_reachable rt b ->
  In (k, c) (comments b) ->
  exists p, comment_post b c = Some p /\ post_id p = comment_postId c.
Proof.
  intros Hreach Hin.
  destruct (blog_reachable_ok rt b Hreach) as [_ [_ [Hpid Hcom]]].
  destruct (Hcom k c Hin) as [_ Hhas]. unfold JsMap.has in Hhas.
  unfold comment_post.
  destruct (JsMap.get (comment_postId c) (posts b)) as [p | ] eqn:E;
    [ | discriminate].
  exists p. split; [reflexivity | ].
  exact (Hpid _ _ (get_In _ _ _ E)).
Qed.

(** X30. [deletePost] takes the post and its comments, and nothing else:
    after a deletion that succeeded in a reachable state, the post is gone,
    no stored comment names it, every other post is as it was, and every
    comment on another post is still stored. *)
Theorem deletePost_cascades (rt : runtime) (b b' : blog) (context : value)
  (id : string) (p : post) :
  blog_reachable rt b ->
  deletePost rt b context id = (b', Normal p) ->
  query_post b' id = None
  /\ (forall k c, In (k, c) (comments b') -> comment_postId c <> id)
  /\ (forall k, k <> id -> query_post b' k = query_post b k)
  /\ (forall k c, In (k, c) (comments b) -> comment_postId c <> id ->
                  In (k, c) (comments b')).
Proof.
  intros Hreach. destruct (blog_reachable_ok rt b Hreach) as [Hp [Hc _]].
  unfold deletePost. destruct (negb (truthy context)); [discriminate | ].
  destruct (JsMap.get id (posts b)) as [q | ]; [ | discriminate].
  destruct (negb (strict_eq (post_author q) (get context "email")));
    [discriminate | ].
  intros H. injection H as <- _. unfold query_post. cbn [posts comments].
  rewrite (delete_comments_filter id (comments b) Hc).
  refine (conj _ (conj _ (conj _ _))).
  - apply get_delete_same. exact Hp.
  - intros k c Hin. apply filter_In in Hin. destruct Hin as [_ Hkeep].
    unfold on_other_post in Hkeep. simpl in Hkeep.
    intros Heq. rewrite Heq, String.eqb_refl in Hkeep. discriminate.
  - intros k Hk. apply get_delete_other. exact Hk.
  - intros k c Hin Hne. apply filter_In. split; [exact Hin | ].
    unfold on_other_post. simpl.
    destruct (String.eqb_spec (comment_postId c) id);
      [contradiction | reflexivity].
Qed.

Lemma one_comment_reachable : blog_reachable demo_runtime one_comment.
Proof.
  eapply blog_next; [ | apply step_addComment].
  eapply blog_next; [apply blog_empty | apply step_addPost].
Qed.

Lemma comments_refer_to_posts_witness :
  exists p,
    comment_post one_comment first_comment = Some p
    /\ post_id p = comment_postId first_comment.
Proof.
  apply (comments_refer_to_posts demo_runtime one_comment
           (toString 1700000000500) first_comment).
  - exact one_comment_reachable.
  - simpl. left. reflexivity.
Defined.

Lemma deletePost_cascades_witness :
  query_post (fst (deletePost demo_runtime one_comment ada_context
                     first_post_id)) first_post_id = None
  /\ (forall k c,
        In (k, c) (comments (fst (deletePost demo_runtime one_comment
                                    ada_context first_post_id))) ->
        comment_postId c <> first_post_id)
  /\ (forall k, k <> first_post_id ->
        query_post (fst (deletePost demo_runtime one_comment ada_context
                           first_post_id)) k
        = query_post one_comment k)
  /\ (forall k c, In (k, c) (comments one_comment) ->
        comment_postId c <> first_post_id ->
        In (k, c) (comments (fst (deletePost demo_runtime one_comment
                                    ada_context first_post_id)))).
Proof.
  eapply (deletePost_cascades demo_runtime one_comment _ ada_context
            first_post_id).
  - exact one_comment_reachable.
  - reflexivity.
Defined.

(** X14. [updatePost] changes the title, the content and the time of the
    update, and nothing else: the id, the author and the time of creation
    stay, the comments stay, and because an empty title or content counts as
    not given, a post that has a title keeps one. *)
Theorem updatePost_keeps_the_rest (rt : runtime) (updated : Z) (b b' : blog)
  (context : value) (id : string) (title content : option string)
  (p' : post) :
  updatePost rt updated b context id title content = (b', Normal p') ->
  exists p,
    JsMap.get id (posts b) = Some p
    /\ JsMap.get id (posts b') = Some p'
    /\ post_id p' = post_id p
    /\ post_author p' = post_author p
    /\ post_createdAt p' = post_createdAt p
    /\ post_title p'
       = match title with
         | Some s => if s =? EmptyString then post_title p else s
         | None => post_title p
         end
    /\ (post_title p <> EmptyString -> post_title p' <> EmptyString)
    /\ comments b' = comments b.
Proof.
  unfold updatePost. destruct (negb (truthy context)); [discriminate | ].
  destruct (JsMap.get id (posts b)) as [p | ]; [ | discriminate].
  destruct (negb (strict_eq (post_author p) (get context "email")));
    [discriminate | ].
  intros H. injection H as <- <-. exists p. cbn [posts comments].
  rewrite get_set_same. repeat split.
  cbn [post_title]. unfold or_keep. intros Hne.
  destruct title as [s | ]; [ | exact Hne].
  destruct (String.eqb_spec s EmptyString); assumption.
Qed.

Lemma updatePost_keeps_the_rest_witness :
  exists p,
    JsMap.get first_post_id (posts one_comment) = Some p
    /\ JsMap.get first_post_id
         (posts (fst (updatePost demo_runtime 1700000000900 one_comment
                        ada_context first_post_id (Some EmptyString)
                        (Some "Edited"))))
       = Some (mkPost first_post_id "Hello" "Edited" (Str "ada@example.com")
                 1700000000001 1700000000900)
    /\ post_id (mkPost first_post_id "Hello" "Edited"
                  (Str "ada@example.com") 1700000000001 1700000000900)
       = post_id p
    /\ post_author (mkPost first_post_id "Hello" "Edited"
                      (Str "ada@example.com") 1700000000001 1700000000900)
       = post_author p
    /\ post_createdAt (mkPost first_post_id "Hello" "Edited"
                         (Str "ada@example.com") 1700000000001
                         1700000000900)
       = post_createdAt p
    /\ post_title (mkPost first_post_id "Hello" "Edited"
                     (Str "ada@example.com") 1700000000001 1700000000900)
       = (if EmptyString =? EmptyString then post_title p else EmptyString)
    /\ (post_title p <> EmptyString ->
        post_title (mkPost first_post_id "Hello" "Edited"
                      (Str "ada@example.com") 1700000000001 1700000000900)
        <> EmptyString)
    /\ comments (fst (updatePost demo_runtime 1700000000900 one_comment
                        ada_context first_post_id (Some EmptyString)
                        (Some "Edited")))
       = comments one_comment.
Proof.
  apply (updatePost_keeps_the_rest demo_runtime 1700000000900 one_comment
           (fst (updatePost demo_runtime 1700000000900 one_comment
                   ada_context first_post_id (Some EmptyString)
                   (Some "Edited")))
           ada_context first_post_id (Some EmptyString) (Some "Edited")).
  reflexivity.
Defined.
